(** * markdown2html: a shallow embedding of [markdown2html.py]

    The script converts a restricted Markdown dialect to HTML.  This file
    embeds its functions ([convert_heading], [convert_unordered_list],
    [convert_ordered_list], [convert_paragraph], [process_inline_markup] and
    the scanning loop of [main]) together with the parts of the Python
    library they rely on ([str] methods, the four regular expressions, MD5),
    and states the properties of the specification about them.

    A Python [str] is modelled as a list of characters with code points
    below 256 (type [ascii]); the model is exact on such strings, which
    include all ASCII text.  [str.encode()] is UTF-8. *)

From Equations Require Import Equations.
From Stdlib Require Import Ascii String DecimalString.
From Stdlib Require Import List ZArith Lia Bool Arith.
Import ListNotations.

Local Open Scope list_scope.

Set Equations Transparent.

(** ** Python strings *)

Definition str := list ascii.

(** A string literal. *)
Definition py (s : string) : str := list_ascii_of_string s.

Definition chr_eqb (a b : ascii) : bool := Ascii.eqb a b.

Arguments chr_eqb : simpl never.

(** [c.isspace()] for the code points below 256: TAB, LF, VT, FF, CR,
    FS, GS, RS, US, space, NEL and NBSP. *)
Definition isspace (c : ascii) : bool :=
  let n := nat_of_ascii c in
  ((9 <=? n) && (n <=? 13)) || ((28 <=? n) && (n <=? 32))
  || (n =? 133) || (n =? 160).

Fixpoint dropwhile (f : ascii -> bool) (s : str) : str :=
  match s with
  | [] => []
  | c :: s' => if f c then dropwhile f s' else s
  end.

(** [s.lstrip(chars)]: every leading character that belongs to [chars]. *)
Definition lstrip_chars (chars : str) (s : str) : str :=
  dropwhile (fun c => existsb (chr_eqb c) chars) s.

(** [s.lstrip()], [s.rstrip()], [s.strip()] on whitespace. *)
Definition lstrip (s : str) : str := dropwhile isspace s.
Definition rstrip (s : str) : str := rev (dropwhile isspace (rev s)).
Definition strip (s : str) : str := rstrip (lstrip s).

(** [s.startswith(p)]. *)
Fixpoint startswith (p s : str) : bool :=
  match p, s with
  | [], _ => true
  | a :: p', b :: s' => chr_eqb a b && startswith p' s'
  | _ :: _, [] => false
  end.

(** [s.split()]: the maximal runs of non-whitespace characters.  [cur]
    holds the current run, reversed. *)
Fixpoint split_from (cur : str) (s : str) : list str :=
  match s with
  | [] => match cur with [] => [] | _ => [rev cur] end
  | c :: s' =>
      if isspace c
      then match cur with
           | [] => split_from [] s'
           | _ => rev cur :: split_from [] s'
           end
      else split_from (c :: cur) s'
  end.

Definition split (s : str) : list str := split_from [] s.

(** [sep.join(parts)]. *)
Fixpoint join (sep : str) (parts : list str) : str :=
  match parts with
  | [] => []
  | [x] => x
  | x :: rest => x ++ sep ++ join sep rest
  end.

(** [str(n)] for a length (the [{level}] of an f-string). *)
Definition str_of_nat (n : nat) : str :=
  list_ascii_of_string (NilZero.string_of_uint (Nat.to_uint n)).

(** [s.replace(old, new)]: every non-overlapping occurrence of [old], from
    the left.  With an empty [old], [new] goes before every character and at
    the end. *)
Equations? replace (old new : str) (s : str) : str by wf (length s) lt :=
  replace [] new s := new ++ flat_map (fun c => c :: new) s;
  replace (o :: old') new [] := [];
  replace (o :: old') new (c :: s') with startswith (o :: old') (c :: s') => {
    | true := new ++ replace (o :: old') new (skipn (length old') s');
    | false := c :: replace (o :: old') new s' }.
Proof.
  all: simpl; pose proof (length_skipn (length old') s'); lia.
Qed.

(** ** Regular expressions

    The script uses four patterns.  Two have the shape [dd([^d]+)dd] (bold
    with [d = *], emphasis with [d = _]) and are used with [re.sub]; two have
    the shape [oo(.*?)cc] (hash with brackets, strip with parentheses) and are
    used with [re.findall].  Each shape gets a matcher at the head of the
    text and a scanner that tries every position from the left and resumes
    after a match, as the [re] module does. *)

Definition newline : ascii := "010"%char.

(** The longest prefix of characters different from [d], and the rest. *)
Fixpoint span_not (d : ascii) (s : str) : str * str :=
  match s with
  | [] => ([], [])
  | c :: s' =>
      if chr_eqb c d then ([], s)
      else let (run, rest) := span_not d s' in (c :: run, rest)
  end.

(** [dd([^d]+)dd] at the head of [s]: the group, when the pattern matches.
    The class [[^d]] is greedy and takes the whole run of characters other
    than [d]; giving characters back cannot help, since the next character
    would then not be [d].  A negated class also matches a line feed. *)
Definition match_pair (d : ascii) (s : str) : option str :=
  match s with
  | c1 :: c2 :: s' =>
      if chr_eqb c1 d && chr_eqb c2 d then
        match span_not d s' with
        | ((_ :: _) as g, r1 :: r2 :: _) =>
            if chr_eqb r1 d && chr_eqb r2 d then Some g else None
        | _ => None
        end
      else None
  | _ => None
  end.

(** [re.sub(r'dd([^d]+)dd', r'pre\1post', s)]. *)
Equations? re_sub_pair (d : ascii) (pre post : str) (s : str) : str
  by wf (length s) lt :=
  re_sub_pair d pre post [] := [];
  re_sub_pair d pre post (c :: s') with match_pair d (c :: s') => {
    | Some g := pre ++ g ++ post
                  ++ re_sub_pair d pre post (skipn (length g + 3) s');
    | None := c :: re_sub_pair d pre post s' }.
Proof.
  all: simpl; pose proof (length_skipn (length g + 3) s'); lia.
Qed.

(** The group of [(.*?)cc] at the head of [s]: the shortest prefix followed
    by [cc]; the dot does not match a line feed. *)
Fixpoint find_close (c : ascii) (s : str) : option str :=
  match s with
  | x :: ((y :: _) as s') =>
      if chr_eqb x c && chr_eqb y c then Some []
      else if chr_eqb x newline then None
      else option_map (cons x) (find_close c s')
  | _ => None
  end.

Arguments find_close : simpl never.

(** [oo(.*?)cc] at the head of [s]: the group, when the pattern matches. *)
Definition match_lazy (o c : ascii) (s : str) : option str :=
  match s with
  | c1 :: c2 :: s' =>
      if chr_eqb c1 o && chr_eqb c2 o then find_close c s' else None
  | _ => None
  end.

(** [re.findall(r'oo(.*?)cc', s)]: the groups of the matches, from the left,
    without overlap. *)
Equations? findall_lazy (o c : ascii) (s : str) : list str
  by wf (length s) lt :=
  findall_lazy o c [] := [];
  findall_lazy o c (x :: s') with match_lazy o c (x :: s') => {
    | Some g := g :: findall_lazy o c (skipn (length g + 3) s');
    | None := findall_lazy o c s' }.
Proof.
  all: simpl; pose proof (length_skipn (length g + 3) s'); lia.
Qed.

(** [re.sub(r'[cC]', '', s)]. *)
Definition remove_c (s : str) : str :=
  filter (fun x => negb (chr_eqb x "c"%char || chr_eqb x "C"%char)) s.

(** ** MD5 (RFC 1321), as [hashlib.md5(data).hexdigest()] *)

Module MD5.

Local Open Scope Z_scope.

Definition mask32 : Z := 0xFFFFFFFF.

Definition add32 (a b : Z) : Z := Z.land (a + b) mask32.

Definition not32 (a : Z) : Z := Z.lxor a mask32.

Definition rotl32 (x n : Z) : Z :=
  Z.land (Z.lor (Z.shiftl x n) (Z.shiftr x (32 - n))) mask32.

Definition shifts : list Z :=
  [7; 12; 17; 22; 7; 12; 17; 22; 7; 12; 17; 22; 7; 12; 17; 22;
   5; 9; 14; 20; 5; 9; 14; 20; 5; 9; 14; 20; 5; 9; 14; 20;
   4; 11; 16; 23; 4; 11; 16; 23; 4; 11; 16; 23; 4; 11; 16; 23;
   6; 10; 15; 21; 6; 10; 15; 21; 6; 10; 15; 21; 6; 10; 15; 21].

(** [floor(2^32 * abs(sin(i + 1)))] for [i] from 0 to 63. *)
Definition sines : list Z :=
  [0xd76aa478; 0xe8c7b756; 0x242070db; 0xc1bdceee;
   0xf57c0faf; 0x4787c62a; 0xa8304613; 0xfd469501;
   0x698098d8; 0x8b44f7af; 0xffff5bb1; 0x895cd7be;
   0x6b901122; 0xfd987193; 0xa679438e; 0x49b40821;
   0xf61e2562; 0xc040b340; 0x265e5a51; 0xe9b6c7aa;
   0xd62f105d; 0x02441453; 0xd8a1e681; 0xe7d3fbc8;
   0x21e1cde6; 0xc33707d6; 0xf4d50d87; 0x455a14ed;
   0xa9e3e905; 0xfcefa3f8; 0x676f02d9; 0x8d2a4c8a;
   0xfffa3942; 0x8771f681; 0x6d9d6122; 0xfde5380c;
   0xa4beea44; 0x4bdecfa9; 0xf6bb4b60; 0xbebfbc70;
   0x289b7ec6; 0xeaa127fa; 0xd4ef3085; 0x04881d05;
   0xd9d4d039; 0xe6db99e5; 0x1fa27cf8; 0xc4ac5665;
   0xf4292244; 0x432aff97; 0xab9423a7; 0xfc93a039;
   0x655b59c3; 0x8f0ccc92; 0xffeff47d; 0x85845dd1;
   0x6fa87e4f; 0xfe2ce6e0; 0xa3014314; 0x4e0811a1;
   0xf7537e82; 0xbd3af235; 0x2ad7d2bb; 0xeb86d391].

(** The [n] low bytes of [x], least significant first. *)
Fixpoint le_bytes (n : nat) (x : Z) : list Z :=
  match n with
  | O => []
  | S n' => Z.land x 0xFF :: le_bytes n' (Z.shiftr x 8)
  end.

(** The value of a little-endian byte sequence. *)
Fixpoint le_value (bs : list Z) : Z :=
  match bs with
  | [] => 0
  | b :: bs' => b + 256 * le_value bs'
  end.

(** The message, a 1 bit, zero bits up to 56 modulo 64 bytes, and the
    length in bits on 8 bytes. *)
Definition pad (msg : list Z) : list Z :=
  let len := length msg in
  msg ++ [0x80] ++ repeat 0 ((119 - len mod 64) mod 64)%nat
      ++ le_bytes 8 (8 * Z.of_nat len).

(** The message cut in chunks of 16 words; [n] bounds the number of
    chunks. *)
Fixpoint chunks (n : nat) (bs : list Z) : list (list Z) :=
  match n, bs with
  | S n', _ :: _ =>
      map (fun j => le_value (firstn 4 (skipn (4 * j) bs))) (seq 0 16)
        :: chunks n' (skipn 64 bs)
  | _, _ => []
  end.

Definition word_state : Type := Z * Z * Z * Z.

(** One of the 64 operations on a chunk [m]. *)
Definition operation (m : list Z) (st : word_state) (i : nat) : word_state :=
  let '(a, b, c, d) := st in
  let '(f, g) :=
    if (i <? 16)%nat then
      (Z.lor (Z.land b c) (Z.land (not32 b) d), i)
    else if (i <? 32)%nat then
      (Z.lor (Z.land d b) (Z.land (not32 d) c), ((5 * i + 1) mod 16)%nat)
    else if (i <? 48)%nat then
      (Z.lxor (Z.lxor b c) d, ((3 * i + 5) mod 16)%nat)
    else
      (Z.lxor c (Z.lor b (not32 d)), ((7 * i) mod 16)%nat) in
  let f' := add32 (add32 (add32 f a) (nth i sines 0)) (nth g m 0) in
  (d, add32 b (rotl32 f' (nth i shifts 0)), b, c).

Definition compress (st : word_state) (m : list Z) : word_state :=
  let '(a0, b0, c0, d0) := st in
  let '(a, b, c, d) := fold_left (operation m) (seq 0 64) st in
  (add32 a0 a, add32 b0 b, add32 c0 c, add32 d0 d).

Definition initial : word_state :=
  (0x67452301, 0xefcdab89, 0x98badcfe, 0x10325476).

(** The 16 bytes of the digest. *)
Definition digest (msg : list Z) : list Z :=
  let padded := pad msg in
  let '(a, b, c, d) :=
    fold_left compress (chunks (length padded) padded) initial in
  le_bytes 4 a ++ le_bytes 4 b ++ le_bytes 4 c ++ le_bytes 4 d.

Definition hex_digit (n : Z) : ascii :=
  nth (Z.to_nat (n mod 16)) (list_ascii_of_string "0123456789abcdef")
      "0"%char.

Definition hex_byte (b : Z) : str := [hex_digit (b / 16); hex_digit b].

Definition hexdigest (msg : list Z) : str := flat_map hex_byte (digest msg).

End MD5.

(** [s.encode()]: the UTF-8 bytes of a string of code points below 256. *)
Definition encode (s : str) : list Z :=
  flat_map (fun c => let n := Z.of_nat (nat_of_ascii c) in
                     if (n <? 128)%Z then [n]
                     else [(192 + n / 64)%Z; (128 + n mod 64)%Z]) s.

(** ** The inline rewriter *)

Definition bold_pass (text : str) : str :=
  re_sub_pair "*"%char (py "<b>") (py "</b>") text.

Definition emphasis_pass (text : str) : str :=
  re_sub_pair "_"%char (py "<em>") (py "</em>") text.

(** The loop over [md5_matches]: the matches are those of the text before
    the loop, each [replace] works on the text as the loop has left it. *)
Definition hash_pass (text : str) : str :=
  let md5_matches := findall_lazy "["%char "]"%char text in
  fold_left
    (fun text m =>
       let md5_hash := MD5.hexdigest (encode m) in
       replace (py "[[" ++ m ++ py "]]") md5_hash text)
    md5_matches text.

(** The loop over [c_matches]. *)
Definition strip_pass (text : str) : str :=
  let c_matches := findall_lazy "("%char ")"%char text in
  fold_left
    (fun text m =>
       let no_c := remove_c m in
       replace (py "((" ++ m ++ py "))") no_c text)
    c_matches text.

Definition process_inline_markup (text : str) : str :=
  let text := bold_pass text in
  let text := emphasis_pass text in
  let text := hash_pass text in
  let text := strip_pass text in
  text.

(** ** Block renderers *)

Definition nl : str := [newline].

(** [convert_heading]: [None] stands for the [IndexError] of
    [line.split()[0]] on a line without a token. *)
Definition convert_heading (line : str) : option str :=
  match nth_error (split line) 0 with
  | None => None
  | Some token =>
      let level := length token in
      let text := strip (lstrip_chars (py "#") line) in
      Some (py "<h" ++ str_of_nat level ++ py ">" ++ text
              ++ py "</h" ++ str_of_nat level ++ py ">")
  end.

Definition convert_unordered_list (lines : list str) : str :=
  let items := map (fun line => strip (lstrip_chars (py "- ") line)) lines in
  let html_items :=
    map (fun item => py "<li>" ++ process_inline_markup item ++ py "</li>")
        items in
  py "<ul>" ++ nl ++ join nl html_items ++ nl ++ py "</ul>".

Definition convert_ordered_list (lines : list str) : str :=
  let items := map (fun line => strip (lstrip_chars (py "* ") line)) lines in
  let html_items :=
    map (fun item => py "<li>" ++ process_inline_markup item ++ py "</li>")
        items in
  py "<ol>" ++ nl ++ join nl html_items ++ nl ++ py "</ol>".

(** Truth value of a string or of a list: non-empty. *)
Definition truthy {A : Type} (l : list A) : bool :=
  match l with [] => false | _ :: _ => true end.

(** The body of the [for i, line in enumerate(lines)] loop of
    [convert_paragraph], on the lines [rest] that remain from index [i];
    [processed_lines] is the list built so far.  The body runs only when
    [lines] has a line, so the subtraction of [nat] is that of Python, and
    [lines[i + 1]] is read only when [i < len(lines) - 1]. *)
Fixpoint convert_paragraph_loop (lines : list str) (i : nat)
    (rest : list str) (processed_lines : list str) : list str :=
  match rest with
  | [] => processed_lines
  | line :: rest' =>
      let line := process_inline_markup line in
      let line :=
        if (i <? length lines - 1) && truthy (nth (i + 1) lines [])
        then line ++ py "<br/>" else line in
      convert_paragraph_loop lines (i + 1) rest' (processed_lines ++ [line])
  end.

Definition convert_paragraph (lines : list str) : str :=
  let processed_lines := convert_paragraph_loop lines 0 lines [] in
  py "<p>" ++ nl ++ join nl processed_lines ++ nl ++ py "</p>".

(** ** The scanner of [main] *)

(** The values of [current_type] other than [None]. *)
Inductive block_type : Type := ul | ol | p.

Definition block_type_eqb (a b : block_type) : bool :=
  match a, b with
  | ul, ul | ol, ol | p, p => true
  | _, _ => false
  end.

(** [current_type == t]. *)
Definition type_is (t : block_type) (cur : option block_type) : bool :=
  match cur with
  | Some t' => block_type_eqb t' t
  | None => false
  end.

Record state : Type := mkState {
  html_lines : list str;
  current_block : list str;
  current_type : option block_type
}.

Definition initial_state : state := mkState [] [] None.

(** One iteration of [for line in lines]; [None] when [convert_heading]
    raises. *)
Definition step (st : state) (line : str) : option state :=
  let line := rstrip line in
  let '(mkState html_lines current_block current_type) := st in
  if startswith (py "#") line then
    let '(html_lines, current_block) :=
      if truthy current_block then
        (match current_type with
         | Some ul => html_lines ++ [convert_unordered_list current_block]
         | Some ol => html_lines ++ [convert_ordered_list current_block]
         | Some p => html_lines ++ [convert_paragraph current_block]
         | None => html_lines
         end, [])
      else (html_lines, current_block) in
    match convert_heading line with
    | Some heading =>
        Some (mkState (html_lines ++ [heading]) current_block current_type)
    | None => None
    end
  else if startswith (py "- ") line then
    let '(html_lines, current_block) :=
      if negb (type_is ul current_type) && truthy current_block then
        (match current_type with
         | Some p => html_lines ++ [convert_paragraph current_block]
         | Some ol => html_lines ++ [convert_ordered_list current_block]
         | _ => html_lines
         end, [])
      else (html_lines, current_block) in
    Some (mkState html_lines (current_block ++ [line]) (Some ul))
  else if startswith (py "* ") line then
    let '(html_lines, current_block) :=
      if negb (type_is ol current_type) && truthy current_block then
        (match current_type with
         | Some p => html_lines ++ [convert_paragraph current_block]
         | Some ul => html_lines ++ [convert_unordered_list current_block]
         | _ => html_lines
         end, [])
      else (html_lines, current_block) in
    Some (mkState html_lines (current_block ++ [line]) (Some ol))
  else if truthy line then
    let '(html_lines, current_block) :=
      if negb (type_is p current_type) && truthy current_block then
        (match current_type with
         | Some ul => html_lines ++ [convert_unordered_list current_block]
         | Some ol => html_lines ++ [convert_ordered_list current_block]
         | _ => html_lines
         end, [])
      else (html_lines, current_block) in
    Some (mkState html_lines (current_block ++ [line]) (Some p))
  else if truthy current_block then
    Some (mkState
            (match current_type with
             | Some ul => html_lines ++ [convert_unordered_list current_block]
             | Some ol => html_lines ++ [convert_ordered_list current_block]
             | Some p => html_lines ++ [convert_paragraph current_block]
             | None => html_lines
             end) [] None)
  else Some st.

(** The loop [for line in lines]. *)
Fixpoint scan (st : state) (lines : list str) : option state :=
  match lines with
  | [] => Some st
  | line :: lines' =>
      match step st line with
      | Some st' => scan st' lines'
      | None => None
      end
  end.

(** "Handle last block if exists": the fragments after the loop. *)
Definition last_block (st : state) : list str :=
  let '(mkState html_lines current_block current_type) := st in
  if truthy current_block then
    match current_type with
    | Some ul => html_lines ++ [convert_unordered_list current_block]
    | Some ol => html_lines ++ [convert_ordered_list current_block]
    | Some p => html_lines ++ [convert_paragraph current_block]
    | None => html_lines
    end
  else html_lines.

(** The fragments [html_lines] that [main] has collected when it opens the
    output file, from the lines that [readlines] returned. *)
Definition fragments (lines : list str) : option (list str) :=
  option_map last_block (scan initial_state lines).

(** [main], from [html_lines = []] to the text it writes to the output
    file. *)
Definition main (lines : list str) : option str :=
  option_map (join nl) (fragments lines).

(** ** The specification's reading, for comparison with the code *)

Module Spec.

(** "Every occurrence of [oo<content>cc]" replaced by [f <content>], each
    occurrence at its own place: [re.sub] with the pattern of
    [findall_lazy] and the replacement computed from the group. *)
Equations? substitute_spans (o c : ascii) (f : str -> str) (s : str) : str
  by wf (length s) lt :=
  substitute_spans o c f [] := [];
  substitute_spans o c f (x :: s') with match_lazy o c (x :: s') => {
    | Some g := f g ++ substitute_spans o c f (skipn (length g + 3) s');
    | None := x :: substitute_spans o c f s' }.
Proof.
  all: simpl; pose proof (length_skipn (length g + 3) s'); lia.
Qed.

Definition hash_substitution (text : str) : str :=
  substitute_spans "["%char "]"%char (fun m => MD5.hexdigest (encode m)) text.

Definition strip_substitution (text : str) : str :=
  substitute_spans "("%char ")"%char remove_c text.

(** The number of leading characters [d] of [s]. *)
Fixpoint count_leading (d : ascii) (s : str) : nat :=
  match s with
  | c :: s' => if chr_eqb c d then S (count_leading d s') else 0
  | [] => 0
  end.

(** The heading of a line: the level is the count of its leading hashes,
    the text is the remainder, trimmed. *)
Definition heading (line : str) : str :=
  let level := count_leading "#"%char line in
  let text := strip (lstrip_chars (py "#") line) in
  py "<h" ++ str_of_nat level ++ py ">" ++ text
    ++ py "</h" ++ str_of_nat level ++ py ">".

(** The item text of a list line: the line without its marker of two
    characters, trimmed. *)
Definition item_text (line : str) : str := strip (skipn 2 line).

(** A list block: the items rewritten, wrapped in [<li>], joined by line
    feeds and wrapped in the list tag. *)
Definition list_block (tag : str) (lines : list str) : str :=
  py "<" ++ tag ++ py ">" ++ nl
    ++ join nl (map (fun line => py "<li>"
                                   ++ process_inline_markup (item_text line)
                                   ++ py "</li>") lines)
    ++ nl ++ py "</" ++ tag ++ py ">".

(** The block kinds of the data model. *)
Inductive kind : Type := Heading | UnorderedList | OrderedList | Paragraph.

Definition kind_eqb (a b : kind) : bool :=
  match a, b with
  | Heading, Heading | UnorderedList, UnorderedList
  | OrderedList, OrderedList | Paragraph, Paragraph => true
  | _, _ => false
  end.

Record Block : Type := mkBlock {
  block_kind : kind;
  block_lines : list str
}.

(** The classification rule, in its priority order, on a line without its
    trailing whitespace; [None] is the block-closing signal of an empty
    line. *)
Definition classify (line : str) : option kind :=
  if startswith (py "#") line then Some Heading
  else if startswith (py "- ") line then Some UnorderedList
  else if startswith (py "* ") line then Some OrderedList
  else if truthy line then Some Paragraph
  else None.

(** The state machine: the blocks closed so far and the open block, if
    any ([None] is the state NONE). *)
Record machine : Type := mkMachine {
  closed : list Block;
  open : option Block
}.

Definition flush (m : machine) : list Block :=
  match open m with
  | Some b => closed m ++ [b]
  | None => closed m
  end.

(** The transition policy. *)
Definition transition (m : machine) (raw : str) : machine :=
  let line := rstrip raw in
  match classify line with
  | None => mkMachine (flush m) None
  | Some Heading => mkMachine (flush m ++ [mkBlock Heading [line]]) None
  | Some k =>
      match open m with
      | Some b =>
          if kind_eqb (block_kind b) k
          then mkMachine (closed m) (Some (mkBlock k (block_lines b ++ [line])))
          else mkMachine (flush m) (Some (mkBlock k [line]))
      | None => mkMachine (closed m) (Some (mkBlock k [line]))
      end
  end.

(** The closed blocks of a document, in source order; the end of the input
    flushes the open block. *)
Definition blocks (lines : list str) : list Block :=
  flush (fold_left transition lines (mkMachine [] None)).

(** The fragment of a block, by the renderer of its kind. *)
Definition render_block (b : Block) : option str :=
  match block_kind b with
  | Heading => convert_heading (hd [] (block_lines b))
  | UnorderedList => Some (convert_unordered_list (block_lines b))
  | OrderedList => Some (convert_ordered_list (block_lines b))
  | Paragraph => Some (convert_paragraph (block_lines b))
  end.

(** The rendered lines of a paragraph with [<br/>] after each line but the
    last. *)
Fixpoint with_breaks (rendered : list str) : list str :=
  match rendered with
  | [] => []
  | [x] => [x]
  | x :: rest => (x ++ py "<br/>") :: with_breaks rest
  end.

(** The fragments of a list of blocks; [None] when a renderer raises. *)
Fixpoint render_blocks (bs : list Block) : option (list str) :=
  match bs with
  | [] => Some []
  | b :: bs' =>
      match render_block b, render_blocks bs' with
      | Some f, Some fs => Some (f :: fs)
      | _, _ => None
      end
  end.

End Spec.

(** ** The scanner and the state machine *)

(** The value of [current_type] for a block kind that accumulates. *)
Definition type_of_kind (k : Spec.kind) : option block_type :=
  match k with
  | Spec.Heading => None
  | Spec.UnorderedList => Some ul
  | Spec.OrderedList => Some ol
  | Spec.Paragraph => Some p
  end.

(** A block of the data model: it has a line, each of its lines is of its
    kind, and a heading has one line. *)
Definition well_formed (b : Spec.Block) : Prop :=
  Spec.block_lines b <> [] /\
  Forall (fun line => Spec.classify line = Some (Spec.block_kind b))
         (Spec.block_lines b) /\
  (Spec.block_kind b = Spec.Heading -> length (Spec.block_lines b) = 1).

(** The state of the scanner stands for a state of the machine: the
    fragments are those of the closed blocks, the accumulator holds the
    lines of the open block, and [current_type] is the kind of the open
    block when there is one.  With no open block the accumulator is empty
    and [current_type] is not looked at: it may be stale. *)
Definition stands_for (st : state) (m : Spec.machine) : Prop :=
  Spec.render_blocks (Spec.closed m) = Some (html_lines st) /\
  Forall well_formed (Spec.closed m) /\
  match Spec.open m with
  | None => current_block st = []
  | Some b =>
      well_formed b /\ Spec.block_kind b <> Spec.Heading /\
      current_block st = Spec.block_lines b /\
      current_type st = type_of_kind (Spec.block_kind b)
  end.

(** A text that is empty or begins with whitespace. *)
Definition token_end (s : str) : bool :=
  match s with
  | [] => true
  | c :: _ => isspace c
  end.

(** A text that ends with [>]. *)
Definition ends_with_gt (s : str) : Prop := exists u, s = u ++ [">"%char].

(** ** Unterminated markup *)

(** The pair [dd] occurs in [s]. *)
Fixpoint has_pair (d : ascii) (s : str) : bool :=
  match s with
  | x :: ((y :: _) as s') => (chr_eqb x d && chr_eqb y d) || has_pair d s'
  | _ => false
  end.

(** Some opening pair [oo] of [s] is followed, later in [s], by a closing
    pair [cc]. *)
Fixpoint has_span (o c : ascii) (s : str) : bool :=
  match s with
  | x :: ((y :: t) as s') =>
      (chr_eqb x o && chr_eqb y o && has_pair c t) || has_span o c s'
  | _ => false
  end.

(** [x] does not occur in [s]. *)
Definition free_of (x : ascii) (s : str) : bool :=
  negb (existsb (chr_eqb x) s).

(** No span that the scan of [oo(.*?)cc] finds in [s] has an opening
    character [o] in its content. *)
Definition flat_spans (o c : ascii) (s : str) : bool :=
  forallb (free_of o) (findall_lazy o c s).

(** A lowercase hexadecimal digit. *)
Definition lower_hex (x : ascii) : bool :=
  existsb (chr_eqb x) (py "0123456789abcdef").

(** ** The state of a pass in the middle of its loop *)

Definition str_eqb (a b : str) : bool :=
  if list_eq_dec ascii_dec a b then true else false.

(** The span [oo g cc], as the loops build it for [replace]. *)
Definition literal (o c : ascii) (g : str) : str := o :: o :: g ++ [c; c].

(** A content that [find_close] returns, whatever follows the span. *)
Definition span_content (c : ascii) (g : str) : Prop :=
  forall r, find_close c (g ++ c :: c :: r) = Some g.

(** The text in which the spans whose content is in [done] have been
    replaced and the other spans are still in place. *)
Equations? substitute_done (o c : ascii) (f : str -> str) (done : list str)
    (s : str) : str by wf (length s) lt :=
  substitute_done o c f done [] := [];
  substitute_done o c f done (x :: s') with match_lazy o c (x :: s') => {
    | Some g := (if existsb (str_eqb g) done then f g else literal o c g)
                  ++ substitute_done o c f done (skipn (length g + 3) s');
    | None := x :: substitute_done o c f done s' }.
Proof.
  all: simpl; pose proof (length_skipn (length g + 3) s'); lia.
Qed.

(** A text without the characters that open a markup of the inline
    rewriter. *)
Definition plain (s : str) : bool :=
  free_of "*" s && free_of "_" s && free_of "[" s && free_of "(" s.

(** ** More of the scanner *)

(** The renderer that the flush branches choose for a value of
    [current_type]. *)
Definition flush_as (ty : block_type) (block : list str) : str :=
  match ty with
  | ul => convert_unordered_list block
  | ol => convert_ordered_list block
  | p => convert_paragraph block
  end.

(** A state with fragments added in front of [html_lines]. *)
Definition after_fragments (before : list str) (st : state) : state :=
  mkState (before ++ html_lines st) (current_block st) (current_type st).

(** Two states that differ at most by a [current_type] left over with an
    empty accumulator. *)
Definition same_block (st1 st2 : state) : Prop :=
  html_lines st1 = html_lines st2 /\
  current_block st1 = current_block st2 /\
  (current_block st1 <> [] -> current_type st1 = current_type st2).

(** ** Reading the input file *)

Definition carriage_return : ascii := "013"%char.

(** The newline translation of a file opened in text mode with the default
    [newline=None]: a carriage return, a line feed and the two in a row each
    become one line feed.  [pending_cr] says that the character before was
    a carriage return, whose line feed has been written. *)
Fixpoint translate_newlines (pending_cr : bool) (s : str) : str :=
  match s with
  | [] => []
  | c :: s' =>
      if chr_eqb c carriage_return then newline :: translate_newlines true s'
      else if chr_eqb c newline then
        if pending_cr then translate_newlines false s'
        else newline :: translate_newlines false s'
      else c :: translate_newlines false s'
  end.

(** The value of [pending_cr] after the text [s]. *)
Fixpoint pending_after (pending_cr : bool) (s : str) : bool :=
  match s with
  | [] => pending_cr
  | c :: s' => pending_after (chr_eqb c carriage_return) s'
  end.

(** The lines of a translated text, each with its line feed; [cur] holds
    the current line, reversed. *)
Fixpoint keepends_from (cur : str) (s : str) : list str :=
  match s with
  | [] => match cur with [] => [] | _ => [rev cur] end
  | c :: s' =>
      if chr_eqb c newline then rev (c :: cur) :: keepends_from [] s'
      else keepends_from (c :: cur) s'
  end.

(** [f.readlines()] on a file whose decoded content is [content]. *)
Definition readlines (content : str) : list str :=
  keepends_from [] (translate_newlines false content).

(** * Properties *)

(** ** Strings *)

Lemma chr_eqb_eq (a b : ascii) : chr_eqb a b = true <-> a = b.
Proof. apply Ascii.eqb_eq. Qed.

Lemma chr_eqb_refl (a : ascii) : chr_eqb a a = true.
Proof. apply Ascii.eqb_refl. Qed.

(** [join] puts the separator between the parts: before every part but the
    first, after every part but the last. *)
Lemma join_cons (sep x : str) (rest : list str) :
  join sep (x :: rest) = x ++ concat (map (fun y => sep ++ y) rest).
Proof.
  revert x; induction rest as [|y rest IH]; intros x.
  - cbn [join map concat]. now rewrite app_nil_r.
  - change (join sep (x :: y :: rest)) with (x ++ sep ++ join sep (y :: rest)).
    rewrite IH. cbn [map concat]. now rewrite <- app_assoc.
Qed.

Lemma join_around (sep x : str) (before after : list str) :
  join sep (before ++ x :: after) =
    concat (map (fun y => y ++ sep) before) ++ x
      ++ concat (map (fun y => sep ++ y) after).
Proof.
  induction before as [|a before IH]; [apply join_cons|].
  destruct before as [|b before].
  - change (join sep ([a] ++ x :: after))
      with (a ++ sep ++ join sep ([] ++ x :: after)).
    rewrite IH. cbn [map concat app]. now rewrite app_nil_r, <- app_assoc.
  - change (join sep ((a :: b :: before) ++ x :: after))
      with (a ++ sep ++ join sep ((b :: before) ++ x :: after)).
    rewrite IH. cbn [map concat]. now rewrite <- !app_assoc.
Qed.

Lemma join_then_sep (sep : str) (parts : list str) :
  parts <> [] ->
  join sep parts ++ sep = concat (map (fun y => y ++ sep) parts).
Proof.
  intros H. destruct (exists_last H) as (before & x & ->).
  rewrite (join_around sep x before []), map_app, concat_app.
  cbn [map concat]. now rewrite !app_nil_r, <- app_assoc.
Qed.

Lemma chr_eqb_neq (a b : ascii) : chr_eqb a b = false <-> a <> b.
Proof. apply Ascii.eqb_neq. Qed.

Lemma startswith_app (u s : str) : startswith u (u ++ s) = true.
Proof.
  induction u as [|a u IH]; simpl; [reflexivity|].
  now rewrite chr_eqb_refl, IH.
Qed.

Lemma startswith_inv (u s : str) :
  startswith u s = true -> s = u ++ skipn (length u) s.
Proof.
  revert s; induction u as [|a u IH]; intros s H; simpl in *; [reflexivity|].
  destruct s as [|b s]; [discriminate|].
  apply andb_true_iff in H as [Hab Hs].
  apply chr_eqb_eq in Hab; subst b.
  simpl. f_equal. now apply IH.
Qed.

Lemma dropwhile_app_all (f : ascii -> bool) (u s : str) :
  forallb f u = true -> dropwhile f (u ++ s) = dropwhile f s.
Proof.
  induction u as [|a u IH]; simpl; [reflexivity|].
  intros H. apply andb_true_iff in H as [Ha Hu].
  rewrite Ha. now apply IH.
Qed.

Lemma split_from_token (tok cur s : str) :
  forallb (fun c => negb (isspace c)) tok = true ->
  token_end s = true ->
  rev cur ++ tok <> [] ->
  exists more, split_from cur (tok ++ s) = (rev cur ++ tok) :: more.
Proof.
  revert cur; induction tok as [|a tok IH]; intros cur H Hs Hne; simpl in *.
  - rewrite app_nil_r in *.
    destruct s as [|c s]; simpl in *.
    + destruct cur; [easy|eauto].
    + rewrite Hs. destruct cur; [easy|eauto].
  - apply andb_true_iff in H as [Ha Ht].
    apply negb_true_iff in Ha. rewrite Ha.
    destruct (IH (a :: cur) Ht Hs) as [more E].
    + simpl. now destruct (rev cur).
    + exists more. rewrite E. simpl. now rewrite <- app_assoc.
Qed.

(** ** Headings *)

(** What [convert_heading] computes: the level is the length of the first
    token of the line. *)
Lemma convert_heading_token (line token : str) (rest : list str) :
  split line = token :: rest ->
  convert_heading line =
    Some (py "<h" ++ str_of_nat (length token) ++ py ">"
            ++ strip (lstrip_chars (py "#") line)
            ++ py "</h" ++ str_of_nat (length token) ++ py ">").
Proof.
  intros H. unfold convert_heading. rewrite H. reflexivity.
Qed.

Lemma forallb_repeat (f : ascii -> bool) (a : ascii) (n : nat) :
  f a = true -> forallb f (repeat a n) = true.
Proof.
  intros H; induction n; simpl; [reflexivity|]. now rewrite H.
Qed.

Lemma count_leading_repeat (d : ascii) (n : nat) (s : str) :
  startswith [d] s = false ->
  Spec.count_leading d (repeat d n ++ s) = n.
Proof.
  intros H; induction n; simpl.
  - destruct s as [|c s]; [reflexivity|]. simpl in H.
    rewrite andb_true_r in H. unfold chr_eqb in *.
    simpl. unfold chr_eqb. rewrite Ascii.eqb_sym. now rewrite H.
  - now rewrite chr_eqb_refl, IHn.
Qed.

(** Where the leading hashes of a line are followed by whitespace or by the
    end of the line, [convert_heading] gives the heading of the
    specification. *)
Lemma convert_heading_agrees (n : nat) (rest : str) :
  0 < n -> token_end rest = true ->
  convert_heading (repeat "#"%char n ++ rest) =
    Some (Spec.heading (repeat "#"%char n ++ rest)).
Proof.
  intros Hn Hrest.
  destruct (split_from_token (repeat "#"%char n) [] rest) as [more E];
    [now apply forallb_repeat|assumption|destruct n; [lia|discriminate]|].
  rewrite (convert_heading_token _ _ _ E). simpl rev. simpl app at 1.
  rewrite repeat_length. unfold Spec.heading.
  rewrite count_leading_repeat; [reflexivity|].
  destruct rest as [|c rest]; [reflexivity|]. simpl in *.
  rewrite andb_true_r. apply chr_eqb_neq. intros <-. discriminate.
Qed.

(** On [n] hashes, a space and a text, the heading is [<hn>] with the text
    trimmed. *)
Lemma convert_heading_hashes_space (n : nat) (text : str) :
  0 < n ->
  convert_heading (repeat "#"%char n ++ " "%char :: text) =
    Some (py "<h" ++ str_of_nat n ++ py ">" ++ strip text
            ++ py "</h" ++ str_of_nat n ++ py ">").
Proof.
  intros Hn. rewrite convert_heading_agrees by easy.
  unfold Spec.heading. rewrite count_leading_repeat by reflexivity.
  unfold lstrip_chars. rewrite dropwhile_app_all by now apply forallb_repeat.
  reflexivity.
Qed.

(** C1, on the code: the level that [convert_heading] emits is the length
    of the first token of the line, not the count of its leading hashes.  On
    the line [#Title], which [main] sends to [convert_heading], the heading
    of the specification is [<h1>Title</h1>] and the code emits
    [<h6>Title</h6>]. *)
Theorem convert_heading_level_is_token_length :
  startswith (py "#") (py "#Title") = true /\
  Spec.heading (py "#Title") = py "<h1>Title</h1>" /\
  convert_heading (py "#Title") = Some (py "<h6>Title</h6>") /\
  main [py "#Title"] = Some (py "<h6>Title</h6>").
Proof. repeat split; vm_compute; reflexivity. Qed.

(** ** Lists *)

Lemma strip_space_cons (t : str) : strip (" "%char :: t) = strip t.
Proof. reflexivity. Qed.

(** Stripping the characters of the marker [m ] leaves the item text alone
    when the text, after its leading whitespace, does not begin with [m]. *)
Lemma lstrip_marker_agrees (m : ascii) (t : str) :
  isspace m = false ->
  startswith [m] (lstrip t) = false ->
  strip (lstrip_chars [m; " "%char] (m :: " "%char :: t)) = strip t.
Proof.
  intros Hm. unfold lstrip_chars. simpl dropwhile at 1.
  rewrite chr_eqb_refl. simpl.
  replace (chr_eqb " " m) with false
    by (symmetry; apply chr_eqb_neq; intros <-; discriminate).
  simpl.
  induction t as [|a t IH]; intros H; [reflexivity|].
  simpl. destruct (chr_eqb a m) eqn:Eam.
  - apply chr_eqb_eq in Eam; subst a. exfalso.
    unfold lstrip in H. simpl in H. rewrite Hm in H. simpl in H.
    now rewrite chr_eqb_refl in H.
  - simpl. destruct (chr_eqb a " ") eqn:Eas; [|reflexivity].
    apply chr_eqb_eq in Eas; subst a. simpl.
    rewrite strip_space_cons. apply IH. exact H.
Qed.

Lemma convert_unordered_list_agrees (lines : list str) :
  Forall (fun line => exists t, line = "-"%char :: " "%char :: t
                                /\ startswith ["-"%char] (lstrip t) = false)
         lines ->
  convert_unordered_list lines = Spec.list_block (py "ul") lines.
Proof.
  intros H. unfold convert_unordered_list, Spec.list_block.
  rewrite map_map.
  rewrite (map_ext_in _ (fun line => py "<li>"
             ++ process_inline_markup (Spec.item_text line) ++ py "</li>"));
    [reflexivity|].
  intros line Hin.
  rewrite Forall_forall in H. destruct (H line Hin) as (t & -> & Ht).
  unfold Spec.item_text. cbn [skipn].
  change (py "- ") with ["-"%char; " "%char].
  now rewrite (lstrip_marker_agrees "-" t eq_refl Ht).
Qed.

Lemma convert_ordered_list_agrees (lines : list str) :
  Forall (fun line => exists t, line = "*"%char :: " "%char :: t
                                /\ startswith ["*"%char] (lstrip t) = false)
         lines ->
  convert_ordered_list lines = Spec.list_block (py "ol") lines.
Proof.
  intros H. unfold convert_ordered_list, Spec.list_block.
  rewrite map_map.
  rewrite (map_ext_in _ (fun line => py "<li>"
             ++ process_inline_markup (Spec.item_text line) ++ py "</li>"));
    [reflexivity|].
  intros line Hin.
  rewrite Forall_forall in H. destruct (H line Hin) as (t & -> & Ht).
  unfold Spec.item_text. cbn [skipn].
  change (py "* ") with ["*"%char; " "%char].
  now rewrite (lstrip_marker_agrees "*" t eq_refl Ht).
Qed.

(** C2, on the code: [lstrip('- ')] and [lstrip('* ')] strip every leading
    character of the marker's set, not the marker of two characters.  A
    list item that begins with the marker's character loses the start of its
    text: [- -1 is negative] becomes the item [1 is negative], and
    [* **bold** item] becomes [bold** item], which the inline rewriter no
    longer sees as bold. *)
Theorem convert_list_strips_more_than_marker :
  Spec.item_text (py "- -1 is negative") = py "-1 is negative" /\
  Spec.list_block (py "ul") [py "- -1 is negative"] =
    py "<ul>" ++ nl ++ py "<li>-1 is negative</li>" ++ nl ++ py "</ul>" /\
  convert_unordered_list [py "- -1 is negative"] =
    py "<ul>" ++ nl ++ py "<li>1 is negative</li>" ++ nl ++ py "</ul>" /\
  Spec.list_block (py "ol") [py "* **bold** item"] =
    py "<ol>" ++ nl ++ py "<li><b>bold</b> item</li>" ++ nl ++ py "</ol>" /\
  convert_ordered_list [py "* **bold** item"] =
    py "<ol>" ++ nl ++ py "<li>bold** item</li>" ++ nl ++ py "</ol>".
Proof. repeat split; vm_compute; reflexivity. Qed.

(** ** Paragraphs *)

Lemma truthy_true {A : Type} (l : list A) : truthy l = true <-> l <> [].
Proof. destruct l; simpl; split; congruence. Qed.

Lemma truthy_false {A : Type} (l : list A) : truthy l = false <-> l = [].
Proof. destruct l; simpl; split; congruence. Qed.

(** The loop of [convert_paragraph] keeps what it has built and adds one
    rendered line for each line that remains. *)
Lemma convert_paragraph_loop_spec (lines : list str) :
  forall rest i acc,
    (forall k, nth_error rest k = nth_error lines (i + k)) ->
    let out := convert_paragraph_loop lines i rest acc in
    length out = length acc + length rest /\
    (forall k, k < length acc -> nth_error out k = nth_error acc k) /\
    (forall k line, nth_error rest k = Some line ->
       nth_error out (length acc + k) =
         Some (process_inline_markup line
                 ++ (if (i + k <? length lines - 1)
                        && truthy (nth (i + k + 1) lines [])
                     then py "<br/>" else []))).
Proof.
  induction rest as [|line rest IH]; intros i acc Hrest; simpl.
  - split; [lia|split; [reflexivity|]]. intros [|k] l ?; discriminate.
  - specialize (IH (i + 1) (acc ++ [
      let line0 := process_inline_markup line in
      if (i <? length lines - 1) && truthy (nth (i + 1) lines [])
      then line0 ++ py "<br/>" else line0])).
    destruct IH as (Hlen & Hold & Hnew).
    { intros k. replace (i + 1 + k) with (i + S k) by lia.
      rewrite <- Hrest. reflexivity. }
    rewrite length_app in *. simpl in *.
    repeat split.
    + lia.
    + intros k Hk. rewrite Hold by lia. apply nth_error_app1. exact Hk.
    + intros [|k] l Hl; simpl in Hl.
      * injection Hl as <-. rewrite Hold by lia.
        rewrite !Nat.add_0_r. rewrite nth_error_app2 by lia.
        rewrite Nat.sub_diag. simpl.
        destruct ((i <? length lines - 1) && truthy (nth (i + 1) lines []));
          [reflexivity|now rewrite app_nil_r].
      * specialize (Hnew k l Hl).
        replace (length acc + S k) with (length acc + 1 + k) by lia.
        rewrite Hnew.
        replace (i + 1 + k) with (i + S k) by lia. reflexivity.
Qed.

(** ** The scanners, one step at a time *)

Lemma replace_cons (o : ascii) (old new : str) (c : ascii) (s : str) :
  replace (o :: old) new (c :: s) =
    if startswith (o :: old) (c :: s)
    then new ++ replace (o :: old) new (skipn (length old) s)
    else c :: replace (o :: old) new s.
Proof.
  simp replace. destruct (startswith (o :: old) (c :: s)); reflexivity.
Qed.

Lemma re_sub_pair_cons (d : ascii) (pre post : str) (x : ascii) (s : str) :
  re_sub_pair d pre post (x :: s) =
    match match_pair d (x :: s) with
    | Some g => pre ++ g ++ post
                  ++ re_sub_pair d pre post (skipn (length g + 3) s)
    | None => x :: re_sub_pair d pre post s
    end.
Proof.
  simp re_sub_pair. destruct (match_pair d (x :: s)); reflexivity.
Qed.

Lemma findall_lazy_cons (o c x : ascii) (s : str) :
  findall_lazy o c (x :: s) =
    match match_lazy o c (x :: s) with
    | Some g => g :: findall_lazy o c (skipn (length g + 3) s)
    | None => findall_lazy o c s
    end.
Proof.
  simp findall_lazy. destruct (match_lazy o c (x :: s)); reflexivity.
Qed.

Lemma substitute_spans_cons (o c : ascii) (f : str -> str) (x : ascii)
    (s : str) :
  Spec.substitute_spans o c f (x :: s) =
    match match_lazy o c (x :: s) with
    | Some g => f g ++ Spec.substitute_spans o c f (skipn (length g + 3) s)
    | None => x :: Spec.substitute_spans o c f s
    end.
Proof.
  simp substitute_spans. destruct (match_lazy o c (x :: s)); reflexivity.
Qed.

(** ** Unterminated markup is left alone *)

Lemma has_pair_cons (d x y : ascii) (t : str) :
  has_pair d (x :: y :: t) = (chr_eqb x d && chr_eqb y d) || has_pair d (y :: t).
Proof. reflexivity. Qed.

Lemma has_span_cons (o c x y : ascii) (t : str) :
  has_span o c (x :: y :: t) =
    (chr_eqb x o && chr_eqb y o && has_pair c t) || has_span o c (y :: t).
Proof. reflexivity. Qed.

Lemma has_span_tail (o c x : ascii) (s : str) :
  has_span o c (x :: s) = false -> has_span o c s = false.
Proof.
  destruct s as [|y t]; [reflexivity|].
  rewrite has_span_cons. intros H. now apply orb_false_iff in H.
Qed.

Lemma has_pair_app_r (d : ascii) (u r : str) :
  has_pair d (u ++ d :: d :: r) = true.
Proof.
  induction u as [|a u IH]; simpl app.
  - rewrite has_pair_cons, !chr_eqb_refl. reflexivity.
  - destruct u as [|b u]; simpl app in *; rewrite has_pair_cons, IH;
      apply orb_true_r.
Qed.

Lemma has_pair_inv (d : ascii) (s : str) :
  has_pair d s = true -> exists u r, s = u ++ d :: d :: r.
Proof.
  induction s as [|x s IH]; [discriminate|].
  destruct s as [|y t]; [discriminate|].
  rewrite has_pair_cons. intros H. apply orb_true_iff in H as [H|H].
  - apply andb_true_iff in H as [Hx Hy].
    apply chr_eqb_eq in Hx, Hy. subst. now exists [], t.
  - destruct (IH H) as (u & r & E). exists (x :: u), r. simpl. now rewrite E.
Qed.

(** [has_span] says what its name says: an opening pair, then, after it, a
    closing pair. *)
Lemma has_span_iff (o c : ascii) (s : str) :
  has_span o c s = true <->
  exists u v w, s = u ++ o :: o :: v ++ c :: c :: w.
Proof.
  split.
  - induction s as [|x s IH]; [discriminate|].
    destruct s as [|y t]; [discriminate|].
    rewrite has_span_cons. intros H. apply orb_true_iff in H as [H|H].
    + apply andb_true_iff in H as [H Hp]. apply andb_true_iff in H as [Hx Hy].
      apply chr_eqb_eq in Hx, Hy. subst.
      destruct (has_pair_inv _ _ Hp) as (v & w & ->). now exists [], v, w.
    + destruct (IH H) as (u & v & w & E). exists (x :: u), v, w.
      simpl. now rewrite E.
  - intros (u & v & w & ->). induction u as [|a u IH]; simpl app.
    + rewrite has_span_cons, !chr_eqb_refl, has_pair_app_r. reflexivity.
    + destruct u as [|b u]; simpl app in *; rewrite has_span_cons, IH;
        apply orb_true_r.
Qed.

Lemma find_close_cons (c x y : ascii) (t : str) :
  find_close c (x :: y :: t) =
    if chr_eqb x c && chr_eqb y c then Some []
    else if chr_eqb x newline then None
    else option_map (cons x) (find_close c (y :: t)).
Proof. reflexivity. Qed.

Lemma find_close_has_pair (c : ascii) (s g : str) :
  find_close c s = Some g -> has_pair c s = true.
Proof.
  revert g; induction s as [|x s IH]; intros g; [discriminate|].
  destruct s as [|y t]; [discriminate|].
  rewrite has_pair_cons, find_close_cons.
  destruct (chr_eqb x c && chr_eqb y c); [reflexivity|].
  destruct (chr_eqb x newline); [discriminate|].
  destruct (find_close c (y :: t)) as [g'|] eqn:E; [|discriminate].
  intros _. simpl. now apply (IH g').
Qed.

Lemma match_lazy_has_span (o c : ascii) (s g : str) :
  match_lazy o c s = Some g -> has_span o c s = true.
Proof.
  destruct s as [|x [|y t]]; try discriminate.
  unfold match_lazy. rewrite has_span_cons.
  destruct (chr_eqb x o && chr_eqb y o); [|discriminate].
  intros H. now rewrite (find_close_has_pair _ _ _ H).
Qed.

Lemma span_not_app (d : ascii) (s run rest : str) :
  span_not d s = (run, rest) -> s = run ++ rest.
Proof.
  revert run rest; induction s as [|x s IH]; intros run rest; simpl.
  - now intros [= <- <-].
  - destruct (chr_eqb x d); [now intros [= <- <-]|].
    destruct (span_not d s) as [run' rest'].
    intros [= <- <-]. simpl. f_equal. now apply IH.
Qed.

Lemma match_pair_has_span (d : ascii) (s g : str) :
  match_pair d s = Some g -> has_span d d s = true.
Proof.
  destruct s as [|x [|y t]]; try discriminate.
  unfold match_pair. rewrite has_span_cons.
  destruct (chr_eqb x d && chr_eqb y d); [|discriminate].
  destruct (span_not d t) as [run rest] eqn:E.
  apply span_not_app in E. subst t.
  destruct run as [|a run]; [discriminate|].
  destruct rest as [|r1 [|r2 rest]]; try discriminate.
  destruct (chr_eqb r1 d && chr_eqb r2 d) eqn:Er; [|discriminate].
  apply andb_true_iff in Er as [E1 E2]. apply chr_eqb_eq in E1, E2. subst.
  intros _. now rewrite has_pair_app_r.
Qed.

(** No opening pair that a closing pair follows: [re.sub] changes
    nothing. *)
Lemma re_sub_pair_unterminated (d : ascii) (pre post s : str) :
  has_span d d s = false -> re_sub_pair d pre post s = s.
Proof.
  induction s as [|x s IH]; intros H; [reflexivity|].
  rewrite re_sub_pair_cons.
  destruct (match_pair d (x :: s)) as [g|] eqn:E.
  - apply match_pair_has_span in E. congruence.
  - f_equal. apply IH. now apply has_span_tail in H.
Qed.

(** No opening pair that a closing pair follows: [re.findall] finds
    nothing. *)
Lemma findall_lazy_unterminated (o c : ascii) (s : str) :
  has_span o c s = false -> findall_lazy o c s = [].
Proof.
  induction s as [|x s IH]; intros H; [reflexivity|].
  rewrite findall_lazy_cons.
  destruct (match_lazy o c (x :: s)) as [g|] eqn:E.
  - apply match_lazy_has_span in E. congruence.
  - apply IH. now apply has_span_tail in H.
Qed.

(** ** The loops of the hash and strip passes

    Both loops have the shape
    [for m in re.findall(oo(.*?)cc, text): text = text.replace(oo m cc, f m)].
    When no span has an opening character in its content, the loop ends on
    the text in which every span is replaced at its place. *)

Lemma substitute_done_cons (o c : ascii) (f : str -> str) (done : list str)
    (x : ascii) (s : str) :
  substitute_done o c f done (x :: s) =
    match match_lazy o c (x :: s) with
    | Some g => (if existsb (str_eqb g) done then f g else literal o c g)
                  ++ substitute_done o c f done (skipn (length g + 3) s)
    | None => x :: substitute_done o c f done s
    end.
Proof.
  simp substitute_done. destruct (match_lazy o c (x :: s)); reflexivity.
Qed.

Lemma str_eqb_eq (a b : str) : str_eqb a b = true <-> a = b.
Proof. unfold str_eqb. destruct (list_eq_dec ascii_dec a b); split; congruence. Qed.

Lemma existsb_str_eqb (g : str) (l : list str) :
  existsb (str_eqb g) l = true <-> In g l.
Proof.
  rewrite existsb_exists. split.
  - intros (h & Hin & E). apply str_eqb_eq in E. now subst.
  - intros H. exists g. split; [exact H|now apply str_eqb_eq].
Qed.

Lemma free_of_cons (o a : ascii) (u : str) :
  free_of o (a :: u) = true <-> a <> o /\ free_of o u = true.
Proof.
  unfold free_of. simpl. rewrite negb_true_iff, orb_false_iff.
  rewrite chr_eqb_neq, negb_true_iff. intuition congruence.
Qed.

Lemma free_of_app (o : ascii) (u v : str) :
  free_of o (u ++ v) = true <-> free_of o u = true /\ free_of o v = true.
Proof.
  unfold free_of. rewrite existsb_app, negb_orb, andb_true_iff. reflexivity.
Qed.

Section Spans.

Variables o c : ascii.
Variable f : str -> str.

Hypothesis o_not_c : o <> c.
Hypothesis o_not_newline : o <> newline.
Hypothesis c_not_newline : c <> newline.
Hypothesis f_free : forall g, free_of o g = true -> free_of o (f g) = true.

Lemma find_close_inv (s g : str) :
  find_close c s = Some g -> exists r, s = g ++ c :: c :: r.
Proof.
  revert g; induction s as [|x s IH]; intros g; [discriminate|].
  destruct s as [|y t]; [discriminate|].
  rewrite find_close_cons.
  destruct (chr_eqb x c && chr_eqb y c) eqn:E.
  - apply andb_true_iff in E as [Ex Ey]. apply chr_eqb_eq in Ex, Ey. subst.
    intros [= <-]. now exists t.
  - destruct (chr_eqb x newline); [discriminate|].
    destruct (find_close c (y :: t)) as [g'|] eqn:E'; [|discriminate].
    intros [= <-]. destruct (IH g' eq_refl) as [r Hr].
    exists r. simpl. now rewrite Hr.
Qed.

Lemma find_close_content (s g : str) :
  find_close c s = Some g -> span_content c g.
Proof.
  revert g; induction s as [|x s IH]; intros g; [discriminate|].
  destruct s as [|y t]; [discriminate|].
  rewrite find_close_cons.
  destruct (chr_eqb x c && chr_eqb y c) eqn:E.
  - intros [= <-] r. simpl. now rewrite find_close_cons, !chr_eqb_refl.
  - destruct (chr_eqb x newline) eqn:En; [discriminate|].
    destruct (find_close c (y :: t)) as [g'|] eqn:E'; [|discriminate].
    intros [= <-] r. specialize (IH g' eq_refl).
    destruct (find_close_inv _ _ E') as [r' Hr'].
    assert (Hy : exists t', g' ++ c :: c :: r = y :: t'
                            /\ (chr_eqb x c && chr_eqb y c) = false).
    { destruct g' as [|a g']; simpl in *.
      - injection Hr' as -> _. eauto.
      - injection Hr' as -> _. eauto. }
    destruct Hy as (t' & Et' & Exy).
    simpl. rewrite Et', find_close_cons, Exy, En, <- Et', (IH r).
    reflexivity.
Qed.

Lemma match_lazy_inv (s g : str) :
  match_lazy o c s = Some g ->
  span_content c g /\ s = literal o c g ++ skipn (length g + 4) s.
Proof.
  destruct s as [|x [|y t]]; try discriminate.
  unfold match_lazy.
  destruct (chr_eqb x o && chr_eqb y o) eqn:E; [|discriminate].
  apply andb_true_iff in E as [Ex Ey]. apply chr_eqb_eq in Ex, Ey. subst.
  intros H. split; [now apply (find_close_content t)|].
  destruct (find_close_inv _ _ H) as [r ->].
  unfold literal. replace (length g + 4) with (S (S (length g + 2))) by lia.
  simpl. f_equal. f_equal. rewrite <- app_assoc. simpl. f_equal.
  rewrite skipn_app, skipn_all2 by lia.
  replace (length g + 2 - length g) with 2 by lia. reflexivity.
Qed.

Lemma match_lazy_literal (g r : str) :
  span_content c g -> match_lazy o c (literal o c g ++ r) = Some g.
Proof.
  intros Hg. unfold literal. simpl. rewrite !chr_eqb_refl. simpl.
  rewrite <- app_assoc. apply Hg.
Qed.

Lemma find_close_single (x : ascii) : find_close c [x] = None.
Proof. reflexivity. Qed.

Lemma find_close_after_open (t g : str) :
  find_close c t = Some g -> find_close c (o :: t) = Some (o :: g).
Proof.
  intros H. destruct t as [|y t]; [discriminate|].
  rewrite find_close_cons.
  replace (chr_eqb o c) with false by (symmetry; now apply chr_eqb_neq).
  replace (chr_eqb o newline) with false by (symmetry; now apply chr_eqb_neq).
  simpl. now rewrite H.
Qed.

Lemma match_lazy_find_close (s g : str) :
  match_lazy o c s = Some g -> find_close c s = Some (o :: o :: g).
Proof.
  destruct s as [|x [|y t]]; try discriminate.
  unfold match_lazy.
  destruct (chr_eqb x o && chr_eqb y o) eqn:E; [|discriminate].
  apply andb_true_iff in E as [Ex Ey]. apply chr_eqb_eq in Ex, Ey. subst.
  intros H. now do 2 apply find_close_after_open.
Qed.

(** Where no closing pair can be reached, none can be reached after the
    spans have been replaced. *)
Lemma find_close_none_done (done : list str) (s : str) :
  find_close c s = None ->
  find_close c (substitute_done o c f done s) = None.
Proof.
  induction s as [|x s IH]; intros H; [reflexivity|].
  rewrite substitute_done_cons.
  destruct (match_lazy o c (x :: s)) as [g|] eqn:Em.
  { apply match_lazy_find_close in Em. congruence. }
  destruct s as [|y t]; [reflexivity|].
  rewrite find_close_cons in H.
  destruct (chr_eqb x c && chr_eqb y c) eqn:Exy; [discriminate|].
  destruct (chr_eqb x newline) eqn:En.
  - apply chr_eqb_eq in En. subst x.
    destruct (substitute_done o c f done (y :: t)) as [|z Z];
      [reflexivity|].
    rewrite find_close_cons.
    replace (chr_eqb newline c) with false
      by (symmetry; apply chr_eqb_neq; congruence).
    now rewrite chr_eqb_refl.
  - destruct (find_close c (y :: t)) as [g'|] eqn:E'; [discriminate|].
    specialize (IH eq_refl).
    rewrite substitute_done_cons in *.
    destruct (match_lazy o c (y :: t)) as [g1|] eqn:Em1.
    { apply match_lazy_find_close in Em1. congruence. }
    rewrite find_close_cons, Exy, En, IH. reflexivity.
Qed.

Lemma match_lazy_not_open (x : ascii) (s : str) :
  x <> o -> match_lazy o c (x :: s) = None.
Proof.
  intros H. destruct s as [|y t]; [reflexivity|]. unfold match_lazy.
  replace (chr_eqb x o) with false by (symmetry; now apply chr_eqb_neq).
  reflexivity.
Qed.

Lemma match_lazy_after_open (s g : str) :
  match_lazy o c s = Some g -> match_lazy o c (o :: s) = Some (o :: g).
Proof.
  destruct s as [|x [|y t]]; try discriminate.
  unfold match_lazy.
  destruct (chr_eqb x o && chr_eqb y o) eqn:E; [|discriminate].
  apply andb_true_iff in E as [Ex Ey]. apply chr_eqb_eq in Ex, Ey. subst.
  rewrite !chr_eqb_refl. simpl. apply find_close_after_open.
Qed.

(** A position at which the pattern fails still fails after the spans to
    its right have been replaced. *)
Lemma match_lazy_none_done (done : list str) (x : ascii) (s : str) :
  match_lazy o c (x :: s) = None ->
  match_lazy o c (x :: substitute_done o c f done s) = None.
Proof.
  intros H. destruct (ascii_dec x o) as [->|Hx];
    [|now apply match_lazy_not_open].
  destruct s as [|y t]; [reflexivity|].
  rewrite substitute_done_cons.
  destruct (match_lazy o c (y :: t)) as [g1|] eqn:Em1.
  - apply match_lazy_after_open in Em1. congruence.
  - unfold match_lazy in H |- *. rewrite chr_eqb_refl in *. simpl in *.
    destruct (chr_eqb y o); [|reflexivity].
    now apply find_close_none_done.
Qed.

(** [replace] with a span as its first argument. *)

Lemma replace_literal_nil (g new : str) :
  replace (literal o c g) new [] = [].
Proof. reflexivity. Qed.

Lemma replace_literal_free (g new u r : str) :
  free_of o u = true ->
  replace (literal o c g) new (u ++ r) = u ++ replace (literal o c g) new r.
Proof.
  induction u as [|a u IH]; intros H; [reflexivity|].
  apply free_of_cons in H as [Ha Hu].
  unfold literal in *. simpl app. rewrite replace_cons.
  cbn [startswith].
  replace (chr_eqb o a) with false
    by (symmetry; apply chr_eqb_neq; congruence).
  simpl. f_equal. now apply IH.
Qed.

Lemma replace_literal_here (g new r : str) :
  replace (literal o c g) new (literal o c g ++ r) =
    new ++ replace (literal o c g) new r.
Proof.
  unfold literal. simpl app. rewrite replace_cons.
  pose proof (startswith_app (o :: o :: g ++ [c; c]) r) as E.
  simpl app in E. rewrite E.
  f_equal. f_equal.
  change (o :: (g ++ [c; c]) ++ r) with ((o :: g ++ [c; c]) ++ r).
  rewrite skipn_app, skipn_all, Nat.sub_diag. reflexivity.
Qed.

Lemma startswith_literal (g s : str) :
  span_content c g ->
  startswith (literal o c g) s = true -> match_lazy o c s = Some g.
Proof.
  intros Hg H. apply startswith_inv in H. rewrite H.
  now apply match_lazy_literal.
Qed.

Lemma replace_literal_other (g g0 new r : str) :
  span_content c g -> span_content c g0 -> g <> g0 -> free_of o g0 = true ->
  replace (literal o c g) new (literal o c g0 ++ r) =
    literal o c g0 ++ replace (literal o c g) new r.
Proof.
  intros Hg Hg0 Hne Hfree.
  assert (H0 : startswith (literal o c g) (literal o c g0 ++ r) = false).
  { destruct (startswith _ _) eqn:E; [|reflexivity].
    apply (startswith_literal _ _ Hg) in E.
    rewrite (match_lazy_literal _ r Hg0) in E. congruence. }
  assert (Hu : free_of o (g0 ++ [c; c]) = true).
  { apply free_of_app. split; [exact Hfree|].
    apply free_of_cons. split; [congruence|].
    apply free_of_cons. split; [congruence|reflexivity]. }
  pose proof (replace_literal_free g new _ r Hu) as Hrest.
  unfold literal in *. simpl app in *. rewrite replace_cons, H0.
  f_equal. rewrite replace_cons.
  destruct (g0 ++ [c; c]) as [|a u] eqn:Eu; [now destruct g0|].
  apply free_of_cons in Hu as [Ha _].
  simpl app. cbn [startswith]. rewrite chr_eqb_refl.
  replace (chr_eqb o a) with false
    by (symmetry; apply chr_eqb_neq; congruence).
  simpl. f_equal. exact Hrest.
Qed.

Lemma replace_literal_miss (g new : str) (x : ascii) (s : str) :
  span_content c g -> match_lazy o c (x :: s) = None ->
  replace (literal o c g) new (x :: s) = x :: replace (literal o c g) new s.
Proof.
  intros Hg H. unfold literal. rewrite replace_cons.
  destruct (startswith (o :: o :: g ++ [c; c]) (x :: s)) eqn:E;
    [|reflexivity].
  apply (startswith_literal _ _ Hg) in E. congruence.
Qed.

Lemma skipn_literal (g r : str) :
  skipn (length g + 4) (literal o c g ++ r) = r.
Proof.
  unfold literal.
  replace (length g + 4) with (length (o :: o :: g ++ [c; c]))
    by (simpl; rewrite length_app; simpl; lia).
  now rewrite skipn_app, skipn_all, Nat.sub_diag.
Qed.

(** The text at a span: the span and what follows it. *)
Lemma match_lazy_split (x : ascii) (s g : str) :
  match_lazy o c (x :: s) = Some g ->
  span_content c g /\ x :: s = literal o c g ++ skipn (length g + 3) s /\
  length (skipn (length g + 3) s) < length (x :: s).
Proof.
  intros H. destruct (match_lazy_inv _ _ H) as [Hg E].
  replace (length g + 4) with (S (length g + 3)) in E by lia.
  simpl skipn in E. repeat split; [exact Hg|exact E|].
  simpl. pose proof (length_skipn (length g + 3) s). lia.
Qed.

(** One iteration of the loop: the spans of content [g] are replaced, the
    rest of the text stays. *)
Lemma replace_substitute_done (g : str) (done : list str) :
  span_content c g ->
  forall n text, length text <= n ->
    forallb (free_of o) (findall_lazy o c text) = true ->
    replace (literal o c g) (f g) (substitute_done o c f done text) =
      substitute_done o c f (g :: done) text.
Proof.
  intros Hg. induction n as [|n IH]; intros text Hn Hflat.
  { destruct text; [reflexivity|simpl in Hn; lia]. }
  destruct text as [|x s]; [reflexivity|].
  rewrite !substitute_done_cons. rewrite findall_lazy_cons in Hflat.
  destruct (match_lazy o c (x :: s)) as [g0|] eqn:Em.
  - destruct (match_lazy_split _ _ _ Em) as (Hg0 & _ & Hlen).
    simpl in Hflat. apply andb_true_iff in Hflat as [Hfree Hflat].
    assert (Hrec : replace (literal o c g) (f g)
                     (substitute_done o c f done (skipn (length g0 + 3) s)) =
                   substitute_done o c f (g :: done)
                     (skipn (length g0 + 3) s))
      by (apply IH; [simpl in *; lia|exact Hflat]).
    cbn [existsb].
    destruct (existsb (str_eqb g0) done) eqn:Ed.
    + rewrite orb_true_r, replace_literal_free by now apply f_free.
      now rewrite Hrec.
    + rewrite orb_false_r. destruct (str_eqb g0 g) eqn:Eg.
      * apply str_eqb_eq in Eg. subst g0.
        now rewrite replace_literal_here, Hrec.
      * rewrite replace_literal_other; [now rewrite Hrec|assumption..| |assumption].
        intros ->. unfold str_eqb in Eg.
        now destruct (list_eq_dec ascii_dec g0 g0).
  - rewrite replace_literal_miss;
      [|assumption|now apply match_lazy_none_done].
    f_equal. apply IH; [simpl in *; lia|exact Hflat].
Qed.

Lemma substitute_done_nil (n : nat) (text : str) :
  length text <= n -> substitute_done o c f [] text = text.
Proof.
  revert text; induction n as [|n IH]; intros text Hn.
  { destruct text; [reflexivity|simpl in Hn; lia]. }
  destruct text as [|x s]; [reflexivity|].
  rewrite substitute_done_cons.
  destruct (match_lazy o c (x :: s)) as [g0|] eqn:Em.
  - destruct (match_lazy_split _ _ _ Em) as (_ & E & Hlen).
    simpl existsb. cbv iota. rewrite IH by (simpl in *; lia).
    now rewrite <- E.
  - f_equal. apply IH. simpl in *; lia.
Qed.

Lemma substitute_done_all (done : list str) (n : nat) (text : str) :
  length text <= n ->
  (forall g, In g (findall_lazy o c text) -> In g done) ->
  substitute_done o c f done text = Spec.substitute_spans o c f text.
Proof.
  revert text; induction n as [|n IH]; intros text Hn Hall.
  { destruct text; [reflexivity|simpl in Hn; lia]. }
  destruct text as [|x s]; [reflexivity|].
  rewrite substitute_done_cons, substitute_spans_cons.
  rewrite findall_lazy_cons in Hall.
  destruct (match_lazy o c (x :: s)) as [g0|] eqn:Em.
  - destruct (match_lazy_split _ _ _ Em) as (_ & _ & Hlen).
    replace (existsb (str_eqb g0) done) with true
      by (symmetry; apply existsb_str_eqb, Hall; now left).
    f_equal. apply IH; [simpl in *; lia|].
    intros g Hin. apply Hall. now right.
  - f_equal. apply IH; [simpl in *; lia|exact Hall].
Qed.

Lemma findall_lazy_content (n : nat) (text : str) :
  length text <= n ->
  forall g, In g (findall_lazy o c text) -> span_content c g.
Proof.
  revert text; induction n as [|n IH]; intros text Hn g.
  { destruct text; [intros []|simpl in Hn; lia]. }
  destruct text as [|x s]; [intros []|].
  rewrite findall_lazy_cons.
  destruct (match_lazy o c (x :: s)) as [g0|] eqn:Em.
  - destruct (match_lazy_split _ _ _ Em) as (Hg0 & _ & Hlen).
    intros [<-|Hin]; [exact Hg0|].
    apply (IH (skipn (length g0 + 3) s)); [simpl in *; lia|exact Hin].
  - apply IH. simpl in *; lia.
Qed.

(** The loop, from any point of its run. *)
Lemma loop_substitute_done (text : str) :
  forallb (free_of o) (findall_lazy o c text) = true ->
  forall ms done,
    (forall g, In g ms -> span_content c g) ->
    fold_left (fun t m => replace (literal o c m) (f m) t) ms
              (substitute_done o c f done text) =
      substitute_done o c f (rev ms ++ done) text.
Proof.
  intros Hflat. induction ms as [|m ms IH]; intros done Hms; [reflexivity|].
  simpl fold_left.
  rewrite (replace_substitute_done m done (Hms m (or_introl eq_refl))
             (length text) text (le_n _) Hflat).
  rewrite IH by (intros g Hin; apply Hms; now right).
  simpl rev. now rewrite <- app_assoc.
Qed.

(** When no span has an opening character in its content, the loop
    replaces every span at its place. *)
Lemma loop_replaces_spans (text : str) :
  flat_spans o c text = true ->
  fold_left (fun t m => replace (literal o c m) (f m) t)
            (findall_lazy o c text) text =
    Spec.substitute_spans o c f text.
Proof.
  intros Hflat.
  rewrite <- (substitute_done_nil (length text) text (le_n _)) at 2.
  rewrite (loop_substitute_done text Hflat)
    by apply (findall_lazy_content (length text) text (le_n _)).
  apply (substitute_done_all _ (length text)); [apply le_n|].
  intros g Hin. apply in_or_app. left. now apply in_rev in Hin.
Qed.

(** A text without closing character and without line feed is a content. *)
Lemma content_free (g : str) :
  free_of c g = true -> free_of newline g = true -> span_content c g.
Proof.
  induction g as [|a g IH]; intros Hc Hn r; simpl app.
  - now rewrite find_close_cons, !chr_eqb_refl.
  - apply free_of_cons in Hc as [Hac Hc]. apply free_of_cons in Hn as [Han Hn].
    destruct (g ++ c :: c :: r) as [|y t] eqn:E; [now destruct g|].
    rewrite find_close_cons.
    replace (chr_eqb a c) with false by (symmetry; now apply chr_eqb_neq).
    replace (chr_eqb a newline) with false
      by (symmetry; now apply chr_eqb_neq).
    simpl. rewrite <- E, (IH Hc Hn r). reflexivity.
Qed.

(** The reading of the specification on a text that begins with plain
    characters and a span: the plain characters stay, the span is replaced
    and the reading goes on after it. *)
Lemma substitute_spans_span (u g r : str) :
  free_of o u = true -> span_content c g ->
  Spec.substitute_spans o c f (u ++ literal o c g ++ r) =
    u ++ f g ++ Spec.substitute_spans o c f r.
Proof.
  intros Hu Hg. induction u as [|a u IH].
  - unfold literal. simpl app.
    rewrite substitute_spans_cons.
    pose proof (match_lazy_literal g r Hg) as E. unfold literal in E.
    simpl app in E. rewrite E. f_equal. f_equal.
    pose proof (skipn_literal g r) as Hs. unfold literal in Hs.
    replace (length g + 4) with (S (length g + 3)) in Hs by lia.
    exact Hs.
  - apply free_of_cons in Hu as [Ha Hu]. simpl app.
    rewrite substitute_spans_cons, match_lazy_not_open by exact Ha.
    f_equal. now apply IH.
Qed.

End Spans.

(** ** The hash pass *)

Lemma le_bytes_length (n : nat) (x : Z) : length (MD5.le_bytes n x) = n.
Proof. revert x; induction n; intros x; simpl; [reflexivity|]. now rewrite IHn. Qed.

Lemma digest_length (msg : list Z) : length (MD5.digest msg) = 16.
Proof.
  unfold MD5.digest.
  destruct (fold_left MD5.compress _ _) as [[[a b] c0] d].
  rewrite !length_app, !le_bytes_length. reflexivity.
Qed.

Lemma hex_digit_lower (n : Z) : lower_hex (MD5.hex_digit n) = true.
Proof.
  unfold MD5.hex_digit.
  assert (H : (0 <= n mod 16 < 16)%Z) by (apply Z.mod_pos_bound; lia).
  assert (Hn : Z.to_nat (n mod 16) < 16) by lia.
  revert Hn. generalize (Z.to_nat (n mod 16)). intros k Hk.
  do 16 (destruct k as [|k]; [reflexivity|]). lia.
Qed.

(** The digest that [hexdigest] returns is made of 32 lowercase
    hexadecimal digits. *)
Lemma hexdigest_format (msg : list Z) :
  length (MD5.hexdigest msg) = 32 /\
  forallb lower_hex (MD5.hexdigest msg) = true.
Proof.
  unfold MD5.hexdigest. pose proof (digest_length msg) as Hl.
  revert Hl. generalize (MD5.digest msg) as bs. intros bs Hl.
  assert (G : forall l, length (flat_map MD5.hex_byte l) = 2 * length l
                        /\ forallb lower_hex (flat_map MD5.hex_byte l) = true).
  { induction l as [|b l [IH1 IH2]]; [now split|].
    split.
    - cbn [flat_map MD5.hex_byte app length]. rewrite IH1. simpl. lia.
    - cbn [flat_map MD5.hex_byte app forallb].
      now rewrite !hex_digit_lower, IH2. }
  destruct (G bs) as [G1 G2]. split; [rewrite G1, Hl; reflexivity|exact G2].
Qed.

Lemma lower_hex_free (x : ascii) (s : str) :
  lower_hex x = false -> forallb lower_hex s = true -> free_of x s = true.
Proof.
  intros Hx. induction s as [|a s IH]; [reflexivity|].
  simpl. intros H. apply andb_true_iff in H as [Ha Hs].
  apply free_of_cons. split; [congruence|now apply IH].
Qed.

Lemma hash_pass_loop (text : str) :
  hash_pass text =
    fold_left (fun t m => replace (literal "[" "]" m)
                            (MD5.hexdigest (encode m)) t)
              (findall_lazy "[" "]" text) text.
Proof. reflexivity. Qed.

(** C4, as the claim states it, fails.  In the line written below,
    [findall] finds two spans: the one of content [a] and, after it, the
    one of content [a] preceded by two opening brackets.  The loop first
    replaces the text of the first span wherever it occurs, also inside the
    second span, whose own text is then gone when its turn comes: it is not
    replaced by its digest. *)
Lemma hash_pass_nested_span :
  let text := py "[[a]] [[[[a]]b]]" in
  findall_lazy "[" "]" text = [py "a"; py "[[a"] /\
  hash_pass text =
    py "0cc175b9c0f1b6a831c399e269772661 [[0cc175b9c0f1b6a831c399e269772661b]]" /\
  Spec.hash_substitution text =
    py "0cc175b9c0f1b6a831c399e269772661 a83f7e380ee2fda6bcfb1bc1ced82924b]]" /\
  ~ (forall line, hash_pass line = Spec.hash_substitution line).
Proof.
  cbv zeta.
  split; [vm_compute; reflexivity|].
  split; [vm_compute; reflexivity|].
  split; [vm_compute; reflexivity|].
  intros H. specialize (H (py "[[a]] [[[[a]]b]]")).
  vm_compute in H. discriminate.
Qed.

(** C4, amended: on every line in which no span between double brackets
    has an opening bracket in its content, the hash pass replaces every
    span, at its place, by the MD5 digest of the UTF-8 bytes of its
    content, in 32 lowercase hexadecimal digits, and leaves the text
    between the spans as it is; the inline rewriter turns the span of
    content [Hello] into the digest of [Hello]. *)
Theorem hash_pass_flat_spans (text : str) :
  flat_spans "[" "]" text = true ->
  hash_pass text = Spec.hash_substitution text /\
  (forall u g r,
     free_of "[" u = true -> free_of "]" g = true ->
     free_of newline g = true ->
     Spec.hash_substitution (u ++ py "[[" ++ g ++ py "]]" ++ r) =
       u ++ MD5.hexdigest (encode g) ++ Spec.hash_substitution r) /\
  (forall m, length (MD5.hexdigest (encode m)) = 32 /\
             forallb lower_hex (MD5.hexdigest (encode m)) = true) /\
  process_inline_markup (py "[[Hello]]") = MD5.hexdigest (encode (py "Hello")) /\
  MD5.hexdigest (encode (py "Hello")) = py "8b1a9953c4611296a827abf8c47804d7".
Proof.
  intros Hflat.
  assert (Hfree : forall g, free_of "[" g = true ->
                    free_of "[" (MD5.hexdigest (encode g)) = true).
  { intros g _. apply lower_hex_free; [reflexivity|].
    apply hexdigest_format. }
  split; [|split; [|split; [|split]]].
  - rewrite hash_pass_loop.
    apply loop_replaces_spans; [discriminate..|exact Hfree|exact Hflat].
  - intros u g r Hu Hg Hn. unfold Spec.hash_substitution.
    pose proof (substitute_spans_span "[" "]"
                  (fun m => MD5.hexdigest (encode m)) u g r Hu) as S.
    unfold literal in S. simpl app in S. rewrite <- app_assoc in S.
    apply S. now apply content_free.
  - intros m. apply hexdigest_format.
  - vm_compute. reflexivity.
  - vm_compute. reflexivity.
Qed.

Lemma hash_pass_flat_spans_witness :
  hash_pass (py "see [[Hello]] and [[a]b]] or [[Hello]]") =
    Spec.hash_substitution (py "see [[Hello]] and [[a]b]] or [[Hello]]").
Proof.
  refine (proj1 (hash_pass_flat_spans _ _)). vm_compute. reflexivity.
Defined.

(** ** The strip pass *)

Lemma remove_c_app (u v : str) : remove_c (u ++ v) = remove_c u ++ remove_c v.
Proof. apply filter_app. Qed.

Lemma remove_c_one (x : ascii) :
  remove_c [x] = if chr_eqb x "c" || chr_eqb x "C" then [] else [x].
Proof.
  unfold remove_c. simpl. now destruct (chr_eqb x "c" || chr_eqb x "C").
Qed.

Lemma remove_c_free (x : ascii) (g : str) :
  free_of x g = true -> free_of x (remove_c g) = true.
Proof.
  induction g as [|a g IH]; [reflexivity|].
  intros H. apply free_of_cons in H as [Ha Hg].
  unfold remove_c in *. simpl.
  destruct (negb (chr_eqb a "c" || chr_eqb a "C")); [|now apply IH].
  apply free_of_cons. split; [exact Ha|now apply IH].
Qed.

Lemma strip_pass_loop (text : str) :
  strip_pass text =
    fold_left (fun t m => replace (literal "(" ")" m) (remove_c m) t)
              (findall_lazy "(" ")" text) text.
Proof. reflexivity. Qed.

(** C5, as the claim states it, fails.  In the line written below,
    [findall] finds two spans: the one of content [a] preceded by two
    opening parentheses and, at the end of the line, the one of content
    [a].  The replacement of the first span, followed by the two closing
    parentheses that were outside it, reads as the second span, and the
    second iteration of the loop replaces it as well. *)
Lemma strip_pass_nested_span :
  let text := py "((((a)))) ((a))" in
  findall_lazy "(" ")" text = [py "((a"; py "a"] /\
  strip_pass text = py "a a" /\
  Spec.strip_substitution text = py "((a)) a" /\
  ~ (forall line, strip_pass line = Spec.strip_substitution line).
Proof.
  cbv zeta.
  split; [vm_compute; reflexivity|].
  split; [vm_compute; reflexivity|].
  split; [vm_compute; reflexivity|].
  intros H. specialize (H (py "((((a)))) ((a))")).
  vm_compute in H. discriminate.
Qed.

(** C5, amended: on every line in which no span between double
    parentheses has an opening parenthesis in its content, the strip pass
    replaces every span, at its place, by its content without the
    characters [c] and [C], the other characters of the content kept in
    their order, and leaves the text between the spans as it is; the
    inline rewriter turns the span of content [Coconut] into [oonut]. *)
Theorem strip_pass_flat_spans (text : str) :
  flat_spans "(" ")" text = true ->
  strip_pass text = Spec.strip_substitution text /\
  (forall u g r,
     free_of "(" u = true -> free_of ")" g = true ->
     free_of newline g = true ->
     Spec.strip_substitution (u ++ py "((" ++ g ++ py "))" ++ r) =
       u ++ remove_c g ++ Spec.strip_substitution r) /\
  (forall u v, remove_c (u ++ v) = remove_c u ++ remove_c v) /\
  (forall x, remove_c [x] =
             if chr_eqb x "c" || chr_eqb x "C" then [] else [x]) /\
  process_inline_markup (py "((Coconut))") = py "oonut".
Proof.
  intros Hflat.
  split; [|split; [|split; [|split]]].
  - rewrite strip_pass_loop.
    apply loop_replaces_spans;
      [discriminate..|apply remove_c_free|exact Hflat].
  - intros u g r Hu Hg Hn. unfold Spec.strip_substitution.
    pose proof (substitute_spans_span "(" ")" remove_c u g r Hu) as S.
    unfold literal in S. simpl app in S. rewrite <- app_assoc in S.
    apply S. now apply content_free.
  - apply remove_c_app.
  - apply remove_c_one.
  - vm_compute. reflexivity.
Qed.

Lemma strip_pass_flat_spans_witness :
  strip_pass (py "a ((Coconut)) cc ((c)x)) ((Coconut)) (") =
    Spec.strip_substitution (py "a ((Coconut)) cc ((c)x)) ((Coconut)) (").
Proof.
  refine (proj1 (strip_pass_flat_spans _ _)). vm_compute. reflexivity.
Defined.

(** ** The scanner follows the state machine *)

Lemma split_from_nonempty (cur s : str) : cur <> [] -> split_from cur s <> [].
Proof.
  revert cur; induction s as [|a s IH]; intros cur H; simpl.
  - destruct cur; [congruence|discriminate].
  - destruct (isspace a).
    + destruct cur; [congruence|discriminate].
    + apply IH. discriminate.
Qed.

(** [convert_heading] does not raise on a line that starts with a hash. *)
Lemma convert_heading_some (line : str) :
  startswith (py "#") line = true -> exists h, convert_heading line = Some h.
Proof.
  intros H. destruct line as [|a line]; [discriminate|].
  simpl in H. rewrite andb_true_r in H. apply chr_eqb_eq in H. subst a.
  unfold convert_heading, split. simpl split_from.
  destruct (split_from ["#"%char] line) as [|tok more] eqn:E.
  - now apply split_from_nonempty in E.
  - simpl. eauto.
Qed.

Lemma render_blocks_app (bs : list Spec.Block) (b : Spec.Block) :
  Spec.render_blocks (bs ++ [b]) =
    match Spec.render_blocks bs, Spec.render_block b with
    | Some fs, Some f => Some (fs ++ [f])
    | _, _ => None
    end.
Proof.
  induction bs as [|a bs IH]; simpl.
  - now destruct (Spec.render_block b).
  - rewrite IH. destruct (Spec.render_block a); [|now destruct (Spec.render_blocks bs)].
    destruct (Spec.render_blocks bs); [|reflexivity].
    now destruct (Spec.render_block b).
Qed.

Lemma well_formed_single (k : Spec.kind) (line : str) :
  Spec.classify line = Some k -> well_formed (Spec.mkBlock k [line]).
Proof.
  intros H. repeat split; simpl; [discriminate|]. now constructor.
Qed.

Lemma well_formed_append (k : Spec.kind) (ls : list str) (line : str) :
  k <> Spec.Heading ->
  well_formed (Spec.mkBlock k ls) -> Spec.classify line = Some k ->
  well_formed (Spec.mkBlock k (ls ++ [line])).
Proof.
  intros Hk (Hne & Hall & _) H. repeat split; simpl in *.
  - now destruct ls.
  - apply Forall_app. split; [exact Hall|now constructor].
  - congruence.
Qed.

Ltac stands :=
  repeat match goal with
    | |- _ /\ _ => split
    | |- context [Spec.render_blocks (_ ++ [_])] =>
        rewrite render_blocks_app
    | |- context [Spec.render_block _] =>
        unfold Spec.render_block; cbn [Spec.block_kind Spec.block_lines hd]
    | H : Spec.render_blocks ?bs = _ |- context [Spec.render_blocks ?bs] =>
        rewrite H
    | H : convert_heading ?l = _ |- context [convert_heading ?l] =>
        rewrite H
    | |- Forall well_formed (_ ++ [_]) =>
        apply Forall_app; split; [|constructor; [|constructor]]
    | |- well_formed (Spec.mkBlock _ [_]) => apply well_formed_single
    | |- well_formed (Spec.mkBlock ?k (?a :: ?ls ++ [?x])) =>
        change (well_formed (Spec.mkBlock k ((a :: ls) ++ [x])))
    | |- well_formed (Spec.mkBlock _ (_ ++ [_])) =>
        apply well_formed_append; [discriminate| |]
    | |- _ <> _ => discriminate
    | |- _ => reflexivity || assumption
    end.

(** One line: the scanner does not raise, and its new state stands for the
    machine's. *)
Lemma step_stands_for (st : state) (m : Spec.machine) (line : str) :
  stands_for st m ->
  exists st', step st line = Some st'
              /\ stands_for st' (Spec.transition m line).
Proof.
  intros (Hr & Hwf & Ho).
  destruct st as [html blk ty], m as [cl op]. simpl in Hr, Hwf, Ho.
  assert (Hc : Spec.classify (rstrip line) = Spec.classify (rstrip line))
    by reflexivity.
  unfold step, Spec.transition, stands_for.
  unfold Spec.classify in Hc at 2. unfold Spec.flush. simpl Spec.closed.
  simpl Spec.open.
  destruct (startswith (py "#") (rstrip line)) eqn:E1.
  { rewrite Hc. destruct (convert_heading_some _ E1) as [h Hh]. rewrite Hh.
    destruct op as [[k ls]|]; simpl in Ho.
    - destruct Ho as (Hb & Hk & -> & ->).
      destruct ls as [|l0 ls]; [now destruct Hb|].
      destruct k; [congruence|..]; simpl; eexists; (split; [reflexivity|]);
        simpl; stands.
    - subst blk. simpl. eexists. split; [reflexivity|]. simpl. stands. }
  destruct (startswith (py "- ") (rstrip line)) eqn:E2.
  { rewrite Hc.
    destruct op as [[k ls]|]; simpl in Ho.
    - destruct Ho as (Hb & Hk & -> & ->).
      destruct ls as [|l0 ls]; [now destruct Hb|].
      destruct k; [congruence|..]; simpl; eexists; (split; [reflexivity|]);
        simpl; stands.
    - subst blk. destruct ty as [[]|]; simpl; eexists;
        (split; [reflexivity|]); simpl; stands. }
  destruct (startswith (py "* ") (rstrip line)) eqn:E3.
  { rewrite Hc.
    destruct op as [[k ls]|]; simpl in Ho.
    - destruct Ho as (Hb & Hk & -> & ->).
      destruct ls as [|l0 ls]; [now destruct Hb|].
      destruct k; [congruence|..]; simpl; eexists; (split; [reflexivity|]);
        simpl; stands.
    - subst blk. destruct ty as [[]|]; simpl; eexists;
        (split; [reflexivity|]); simpl; stands. }
  destruct (truthy (rstrip line)) eqn:E4.
  { rewrite Hc.
    destruct op as [[k ls]|]; simpl in Ho.
    - destruct Ho as (Hb & Hk & -> & ->).
      destruct ls as [|l0 ls]; [now destruct Hb|].
      destruct k; [congruence|..]; simpl; eexists; (split; [reflexivity|]);
        simpl; stands.
    - subst blk. destruct ty as [[]|]; simpl; eexists;
        (split; [reflexivity|]); simpl; stands. }
  rewrite Hc.
  destruct op as [[k ls]|]; simpl in Ho.
  - destruct Ho as (Hb & Hk & -> & ->).
    destruct ls as [|l0 ls]; [now destruct Hb|].
    destruct k; [congruence|..]; simpl; eexists; (split; [reflexivity|]);
      simpl; stands.
  - subst blk. simpl. eexists. split; [reflexivity|]. simpl. stands.
Qed.

Lemma scan_stands_for (lines : list str) :
  forall st m, stands_for st m ->
    exists st', scan st lines = Some st'
                /\ stands_for st' (fold_left Spec.transition lines m).
Proof.
  induction lines as [|line lines IH]; intros st m H; simpl.
  - eauto.
  - destruct (step_stands_for st m line H) as (st1 & E & H1).
    rewrite E. now apply IH.
Qed.

Lemma last_block_flush (st : state) (m : Spec.machine) :
  stands_for st m ->
  Spec.render_blocks (Spec.flush m) = Some (last_block st) /\
  Forall well_formed (Spec.flush m).
Proof.
  intros (Hr & Hwf & Ho).
  destruct st as [html blk ty], m as [cl op]. simpl in Hr, Hwf, Ho.
  unfold Spec.flush, last_block. simpl Spec.open. simpl Spec.closed.
  destruct op as [[k ls]|]; simpl in Ho.
  - destruct Ho as (Hb & Hk & -> & ->).
    destruct ls as [|l0 ls]; [now destruct Hb|].
    destruct k; [congruence|..]; simpl; stands.
  - subst blk. simpl. stands.
Qed.

Lemma initial_stands_for : stands_for initial_state (Spec.mkMachine [] None).
Proof. repeat split. constructor. Qed.

(** The fragments that [main] collects are those of the blocks of the
    state machine, in their order; [main] does not raise. *)
Lemma fragments_of_blocks (lines : list str) :
  exists frags,
    fragments lines = Some frags /\
    Spec.render_blocks (Spec.blocks lines) = Some frags /\
    Forall well_formed (Spec.blocks lines).
Proof.
  destruct (scan_stands_for lines _ _ initial_stands_for) as (st & E & H).
  destruct (last_block_flush _ _ H) as [Hf Hw].
  exists (last_block st). unfold fragments, Spec.blocks. rewrite E.
  repeat split; assumption.
Qed.

(** ** The text that [main] writes *)

Lemma render_block_ends (b : Spec.Block) (frag : str) :
  Spec.render_block b = Some frag -> ends_with_gt frag.
Proof.
  unfold Spec.render_block, ends_with_gt.
  destruct (Spec.block_kind b).
  - unfold convert_heading. destruct (nth_error _ 0) as [tok|]; [|discriminate].
    intros H. injection H as H. subst frag.
    exists (py "<h" ++ str_of_nat (length tok) ++ py ">"
              ++ strip (lstrip_chars (py "#") (hd [] (Spec.block_lines b)))
              ++ py "</h" ++ str_of_nat (length tok)).
    rewrite <- !app_assoc. reflexivity.
  - intros H. injection H as H. subst frag. unfold convert_unordered_list.
    eexists (py "<ul>" ++ nl ++ join nl _ ++ nl ++ py "</ul").
    rewrite <- !app_assoc. reflexivity.
  - intros H. injection H as H. subst frag. unfold convert_ordered_list.
    eexists (py "<ol>" ++ nl ++ join nl _ ++ nl ++ py "</ol").
    rewrite <- !app_assoc. reflexivity.
  - intros H. injection H as H. subst frag. unfold convert_paragraph.
    eexists (py "<p>" ++ nl ++ join nl _ ++ nl ++ py "</p").
    rewrite <- !app_assoc. reflexivity.
Qed.

Lemma render_blocks_ends (bs : list Spec.Block) (frags : list str) :
  Spec.render_blocks bs = Some frags -> Forall ends_with_gt frags.
Proof.
  revert frags; induction bs as [|b bs IH]; intros frags; simpl.
  - intros [= <-]. constructor.
  - destruct (Spec.render_block b) as [fr|] eqn:E; [|discriminate].
    destruct (Spec.render_blocks bs) as [fs|]; [|discriminate].
    intros [= <-]. constructor; [now apply render_block_ends in E|].
    now apply IH.
Qed.

Lemma join_ends (frags : list str) :
  frags <> [] -> Forall ends_with_gt frags -> ends_with_gt (join nl frags).
Proof.
  induction frags as [|a frags IH]; [congruence|].
  intros _ H. inversion H as [|? ? Ha Hf]; subst.
  destruct frags as [|b frags]; [exact Ha|].
  destruct (IH ltac:(discriminate) Hf) as [u Hu].
  exists (a ++ nl ++ u).
  change (join nl (a :: b :: frags)) with (a ++ nl ++ join nl (b :: frags)).
  rewrite Hu. now rewrite <- !app_assoc.
Qed.

Lemma classify_truthy (line : str) (k : Spec.kind) :
  Spec.classify line = Some k -> line <> [].
Proof. intros H ->. discriminate. Qed.

Lemma classify_none (line : str) : Spec.classify line = None -> line = [].
Proof.
  unfold Spec.classify.
  destruct (startswith (py "#") line); [discriminate|].
  destruct (startswith (py "- ") line); [discriminate|].
  destruct (startswith (py "* ") line); [discriminate|].
  destruct (truthy line) eqn:E; [discriminate|].
  intros _. now apply truthy_false.
Qed.

Lemma transition_lines (m : Spec.machine) (line : str) :
  concat (map Spec.block_lines (Spec.flush (Spec.transition m line))) =
    concat (map Spec.block_lines (Spec.flush m))
      ++ (if truthy (rstrip line) then [rstrip line] else []).
Proof.
  unfold Spec.transition.
  destruct (Spec.classify (rstrip line)) as [k|] eqn:E.
  - apply classify_truthy, truthy_true in E. rewrite E.
    destruct m as [cl [[k0 ls]|]]; unfold Spec.flush;
      destruct k; try destruct k0;
      cbn [Spec.open Spec.closed Spec.block_kind Spec.block_lines
           Spec.kind_eqb];
      rewrite ?map_app, ?concat_app; cbn [map concat];
      rewrite ?app_nil_r, <- ?app_assoc; reflexivity.
  - apply classify_none in E. rewrite E. cbn [truthy].
    now rewrite app_nil_r.
Qed.

(** The lines of the blocks, block after block, are the non-empty lines of
    the input, trimmed, in their order. *)
Lemma blocks_lines_in_order (lines : list str) :
  concat (map Spec.block_lines (Spec.blocks lines)) =
    filter truthy (map rstrip lines).
Proof.
  unfold Spec.blocks.
  change (filter truthy (map rstrip lines))
    with (concat (map Spec.block_lines (Spec.flush (Spec.mkMachine [] None)))
            ++ filter truthy (map rstrip lines)).
  generalize (Spec.mkMachine [] None).
  induction lines as [|line lines IH]; intros m; cbn [fold_left map filter].
  - now rewrite app_nil_r.
  - rewrite IH, transition_lines, <- app_assoc.
    now destruct (truthy (rstrip line)).
Qed.

(** C8: on no line at all [main] writes the empty string; on every input
    it writes the fragments of the closed blocks, in the order of the
    blocks: the first fragment, then every other fragment with one line
    feed in front of it, so that a line feed stands between two fragments
    and none follows the last one; the blocks hold the non-empty lines of
    the input in source order; and the text that [main] writes is empty or
    ends with the [>] of its last fragment. *)
Theorem main_joins_fragments :
  main [] = Some [] /\
  forall lines, exists frags,
    Spec.render_blocks (Spec.blocks lines) = Some frags /\
    main lines = Some (join nl frags) /\
    main lines =
      Some (match frags with
            | [] => []
            | first :: rest =>
                first ++ concat (map (fun frag => "010"%char :: frag) rest)
            end) /\
    (forall text frag before after,
       main lines = Some text -> frags = before ++ frag :: after ->
       text = concat (map (fun f => f ++ ["010"%char]) before) ++ frag
                ++ concat (map (fun f => "010"%char :: f) after)) /\
    concat (map Spec.block_lines (Spec.blocks lines)) =
      filter truthy (map rstrip lines) /\
    (frags = [] -> join nl frags = []) /\
    (frags <> [] -> ends_with_gt (join nl frags)).
Proof.
  split; [reflexivity|].
  intros lines. destruct (fragments_of_blocks lines) as (frags & E & Hb & _).
  exists frags. unfold main. rewrite E. cbn [option_map].
  split; [exact Hb|]. split; [reflexivity|].
  split; [destruct frags as [|first rest]; [reflexivity|];
          f_equal; apply (join_cons nl)|].
  split; [intros text frag before after Ht ->; injection Ht as <-;
          apply (join_around nl)|].
  split; [apply blocks_lines_in_order|]. split.
  - now intros ->.
  - intros Hne. apply join_ends; [exact Hne|].
    now apply (render_blocks_ends _ _ Hb).
Qed.

(** ** Blank lines and paragraphs *)

Lemma classify_paragraph (line : str) :
  Spec.classify line = Some Spec.Paragraph ->
  startswith (py "#") line = false /\ startswith (py "- ") line = false /\
  startswith (py "* ") line = false /\ truthy line = true.
Proof.
  unfold Spec.classify.
  destruct (startswith (py "#") line); [discriminate|].
  destruct (startswith (py "- ") line); [discriminate|].
  destruct (startswith (py "* ") line); [discriminate|].
  destruct (truthy line); [auto|discriminate].
Qed.

(** A paragraph line met with an empty accumulator opens a block, whatever
    [current_type] holds. *)
Lemma step_paragraph_first (html : list str) (ty : option block_type)
    (line : str) :
  Spec.classify (rstrip line) = Some Spec.Paragraph ->
  step (mkState html [] ty) line = Some (mkState html [rstrip line] (Some p)).
Proof.
  intros H. apply classify_paragraph in H as (E1 & E2 & E3 & E4).
  unfold step. rewrite E1, E2, E3, E4.
  now destruct ty as [[]|].
Qed.

(** A paragraph line met with an open paragraph joins it. *)
Lemma step_paragraph_next (html blk : list str) (line : str) :
  Spec.classify (rstrip line) = Some Spec.Paragraph ->
  step (mkState html blk (Some p)) line =
    Some (mkState html (blk ++ [rstrip line]) (Some p)).
Proof.
  intros H. apply classify_paragraph in H as (E1 & E2 & E3 & E4).
  unfold step. rewrite E1, E2, E3, E4. reflexivity.
Qed.

Lemma scan_paragraph_next (ps : list str) :
  Forall (fun l => Spec.classify (rstrip l) = Some Spec.Paragraph) ps ->
  forall html blk,
    scan (mkState html blk (Some p)) ps =
      Some (mkState html (blk ++ map rstrip ps) (Some p)).
Proof.
  induction 1 as [|l ps Hl _ IH]; intros html blk; cbn [scan map].
  - now rewrite app_nil_r.
  - rewrite step_paragraph_next by exact Hl. rewrite IH.
    now rewrite <- app_assoc.
Qed.

Lemma scan_paragraph_first (ps : list str) :
  ps <> [] ->
  Forall (fun l => Spec.classify (rstrip l) = Some Spec.Paragraph) ps ->
  forall html ty,
    scan (mkState html [] ty) ps = Some (mkState html (map rstrip ps) (Some p)).
Proof.
  intros Hne H html ty. destruct ps as [|l ps]; [congruence|].
  inversion H as [|? ? Hl Hps]; subst. cbn [scan map].
  rewrite step_paragraph_first by exact Hl.
  now rewrite scan_paragraph_next.
Qed.

(** A blank line closes the open block, if there is one, and leaves the
    scanner with an empty accumulator. *)
Lemma step_blank (st : state) (blank : str) :
  rstrip blank = [] ->
  step st blank =
    Some (match current_block st with
          | [] => st
          | _ :: _ => mkState (last_block st) [] None
          end).
Proof.
  intros H. unfold step, last_block. rewrite H.
  destruct st as [html [|l blk] ty]; reflexivity.
Qed.

Lemma scan_app (l1 l2 : list str) (st : state) :
  scan st (l1 ++ l2) =
    match scan st l1 with
    | Some st' => scan st' l2
    | None => None
    end.
Proof.
  revert st; induction l1 as [|a l1 IH]; intros st; simpl; [reflexivity|].
  destruct (step st a); [apply IH|reflexivity].
Qed.

(** ** Paragraph blocks have no empty line *)

Lemma with_breaks_cons (x y : str) (rest : list str) :
  Spec.with_breaks (x :: y :: rest) =
    (x ++ py "<br/>") :: Spec.with_breaks (y :: rest).
Proof. reflexivity. Qed.

(** With no empty line in the block, the loop of [convert_paragraph] puts
    [<br/>] after each line but the last. *)
Lemma convert_paragraph_loop_breaks (lines : list str) :
  Forall (fun l => l <> []) lines ->
  forall rest pre acc, lines = pre ++ rest ->
    convert_paragraph_loop lines (length pre) rest acc =
      acc ++ Spec.with_breaks (map process_inline_markup rest).
Proof.
  intros Hall. induction rest as [|line rest IH]; intros pre acc E.
  - simpl. now rewrite app_nil_r.
  - cbn [convert_paragraph_loop].
    assert (Hlen : length lines = length pre + S (length rest))
      by (rewrite E, length_app; reflexivity).
    specialize (IH (pre ++ [line])).
    rewrite length_app in IH. cbn [length] in IH.
    rewrite IH by (rewrite E, <- app_assoc; reflexivity).
    rewrite <- app_assoc. f_equal.
    destruct rest as [|y rest].
    + replace (length pre <? length lines - 1) with false
        by (symmetry; apply Nat.ltb_ge; simpl in Hlen; lia).
      reflexivity.
    + replace (length pre <? length lines - 1) with true
        by (symmetry; apply Nat.ltb_lt; simpl in Hlen; lia).
      assert (Hy : nth (length pre + 1) lines [] = y).
      { rewrite E, app_nth2 by lia.
        replace (length pre + 1 - length pre) with 1 by lia. reflexivity. }
      rewrite Hy.
      assert (Hne : y <> []).
      { rewrite Forall_forall in Hall. apply Hall. rewrite E.
        apply in_or_app. right. right. now left. }
      apply truthy_true in Hne. rewrite Hne. cbn [andb map app].
      now rewrite with_breaks_cons.
Qed.

Lemma convert_paragraph_breaks (lines : list str) :
  Forall (fun l => l <> []) lines ->
  convert_paragraph lines =
    py "<p>" ++ nl
      ++ join nl (Spec.with_breaks (map process_inline_markup lines))
      ++ nl ++ py "</p>".
Proof.
  intros H. unfold convert_paragraph.
  pose proof (convert_paragraph_loop_breaks lines H lines [] [] eq_refl) as E.
  cbn [length app] in E. now rewrite E.
Qed.

Lemma well_formed_paragraph (b : Spec.Block) :
  well_formed b -> Spec.block_kind b = Spec.Paragraph ->
  Forall (fun l => l <> []) (Spec.block_lines b).
Proof.
  intros (_ & Hall & _) Hk. rewrite Hk in Hall.
  eapply Forall_impl; [|exact Hall].
  intros l Hl. now apply classify_truthy in Hl.
Qed.

(** The accumulator of the scanner, while the block is a paragraph. *)
Lemma scan_paragraph_accumulator (lines : list str) (st : state) :
  scan initial_state lines = Some st -> current_type st = Some p ->
  Forall (fun l => l <> []) (current_block st).
Proof.
  intros E Ht.
  destruct (scan_stands_for lines _ _ initial_stands_for) as (st' & E' & H).
  rewrite E in E'. injection E' as <-.
  destruct H as (_ & _ & Ho).
  destruct (Spec.open _) as [b|].
  - destruct Ho as (Hb & Hk & -> & Hty).
    apply well_formed_paragraph; [exact Hb|].
    rewrite Ht in Hty. destruct (Spec.block_kind b); try discriminate.
    reflexivity.
  - rewrite Ho. constructor.
Qed.

(** C10: every line of a paragraph block is non-empty, in the blocks that
    [main] renders and in the accumulator of the scanner; so the paragraph
    renderer puts [<br/>] after each line of the block but the last. *)
Theorem paragraph_lines_nonempty (lines : list str) (b : Spec.Block) :
  In b (Spec.blocks lines) -> Spec.block_kind b = Spec.Paragraph ->
  Forall (fun l => l <> []) (Spec.block_lines b) /\
  Spec.render_block b =
    Some (py "<p>" ++ nl
            ++ join nl (Spec.with_breaks
                          (map process_inline_markup (Spec.block_lines b)))
            ++ nl ++ py "</p>") /\
  (exists frags, fragments lines = Some frags
                 /\ Spec.render_blocks (Spec.blocks lines) = Some frags) /\
  (forall st, scan initial_state lines = Some st ->
              current_type st = Some p ->
              Forall (fun l => l <> []) (current_block st)).
Proof.
  intros Hin Hk.
  destruct (fragments_of_blocks lines) as (frags & E & Hb & Hw).
  assert (Hne : Forall (fun l => l <> []) (Spec.block_lines b)).
  { apply well_formed_paragraph; [|exact Hk].
    rewrite Forall_forall in Hw. now apply Hw. }
  split; [exact Hne|]. split.
  - unfold Spec.render_block. rewrite Hk.
    now rewrite convert_paragraph_breaks.
  - split; [now exists frags|].
    intros st. apply scan_paragraph_accumulator.
Qed.

Lemma paragraph_lines_nonempty_witness :
  Forall (fun l => l <> []) [py "first"; py "second"].
Proof.
  refine (proj1 (paragraph_lines_nonempty
            [py "first  "; py "second"; py ""; py "- item"]
            (Spec.mkBlock Spec.Paragraph [py "first"; py "second"]) _ _)).
  - vm_compute. left. reflexivity.
  - reflexivity.
Defined.

(** ** Fragments come from non-empty blocks *)

Lemma join_cons_cons (sep a b : str) (rest : list str) :
  join sep (a :: b :: rest) = a ++ sep ++ join sep (b :: rest).
Proof. reflexivity. Qed.

Lemma convert_unordered_list_nonempty (l0 : str) (ls : list str) :
  convert_unordered_list (l0 :: ls) <> convert_unordered_list [] /\
  convert_unordered_list (l0 :: ls) <> convert_ordered_list [].
Proof.
  unfold convert_unordered_list, convert_ordered_list.
  cbn [map]. split.
  - destruct (map _ (map _ ls)); [cbn [join]|rewrite join_cons_cons];
      intros E; apply app_inv_head in E; apply app_inv_head in E;
      discriminate E.
  - intros E. discriminate E.
Qed.

Lemma convert_ordered_list_nonempty (l0 : str) (ls : list str) :
  convert_ordered_list (l0 :: ls) <> convert_unordered_list [] /\
  convert_ordered_list (l0 :: ls) <> convert_ordered_list [].
Proof.
  unfold convert_unordered_list, convert_ordered_list.
  cbn [map]. split.
  - intros E. discriminate E.
  - destruct (map _ (map _ ls)); [cbn [join]|rewrite join_cons_cons];
      intros E; apply app_inv_head in E; apply app_inv_head in E;
      discriminate E.
Qed.

Lemma render_block_not_empty_list (b : Spec.Block) (frag : str) :
  well_formed b -> Spec.render_block b = Some frag ->
  frag <> convert_unordered_list [] /\ frag <> convert_ordered_list [].
Proof.
  intros (Hne & _ & _). unfold Spec.render_block.
  destruct b as [k [|l0 ls]]; [easy|]. cbn [Spec.block_kind Spec.block_lines].
  destruct k.
  - unfold convert_heading. destruct (nth_error _ 0); [|discriminate].
    intros H. injection H as H. subst frag.
    split; intros E; discriminate E.
  - intros H. injection H as H. subst frag.
    apply convert_unordered_list_nonempty.
  - intros H. injection H as H. subst frag.
    apply convert_ordered_list_nonempty.
  - intros H. injection H as H. subst frag.
    split; intros E; discriminate E.
Qed.

Lemma render_blocks_not_empty_list (bs : list Spec.Block) (frags : list str) :
  Forall well_formed bs -> Spec.render_blocks bs = Some frags ->
  Forall (fun frag => frag <> convert_unordered_list []
                      /\ frag <> convert_ordered_list []) frags.
Proof.
  intros Hw. revert frags. induction Hw as [|b bs Hb _ IH]; intros frags.
  - intros [= <-]. constructor.
  - cbn [Spec.render_blocks].
    destruct (Spec.render_block b) as [fr|] eqn:E; [|discriminate].
    destruct (Spec.render_blocks bs) as [fs|]; [|discriminate].
    intros H. injection H as H. subst frags.
    constructor; [now apply (render_block_not_empty_list b)|now apply IH].
Qed.

(** With an empty accumulator, what a step does to the fragments and to
    the accumulator does not depend on [current_type]. *)
Lemma step_stale_type (html : list str) (ty ty' : option block_type)
    (line : str) :
  match step (mkState html [] ty) line, step (mkState html [] ty') line with
  | Some s1, Some s2 =>
      html_lines s1 = html_lines s2 /\
      current_block s1 = current_block s2 /\
      (current_block s1 <> [] -> current_type s1 = current_type s2)
  | None, None => True
  | _, _ => False
  end.
Proof.
  unfold step.
  destruct (startswith (py "#") (rstrip line)).
  { cbn [truthy]. destruct (convert_heading (rstrip line)); [|exact I].
    cbn. repeat split. congruence. }
  destruct (startswith (py "- ") (rstrip line)).
  { rewrite !andb_false_r. cbn. repeat split. }
  destruct (startswith (py "* ") (rstrip line)).
  { rewrite !andb_false_r. cbn. repeat split. }
  destruct (truthy (rstrip line)).
  { rewrite !andb_false_r. cbn. repeat split. }
  cbn. repeat split. congruence.
Qed.

(** After a heading line and after a blank line the accumulator is
    empty. *)
Lemma step_closes (st st' : state) (line : str) :
  step st line = Some st' ->
  Spec.classify (rstrip line) = Some Spec.Heading
  \/ Spec.classify (rstrip line) = None ->
  current_block st' = [].
Proof.
  unfold step, Spec.classify. destruct st as [html blk ty].
  destruct (startswith (py "#") (rstrip line)).
  { destruct blk; cbn [truthy]; cbv beta iota zeta;
      (destruct (convert_heading (rstrip line)); [|discriminate]);
      intros [= <-] _; reflexivity. }
  destruct (startswith (py "- ") (rstrip line));
    [intros _ [H|H]; discriminate H|].
  destruct (startswith (py "* ") (rstrip line));
    [intros _ [H|H]; discriminate H|].
  destruct (truthy (rstrip line)); [intros _ [H|H]; discriminate H|].
  destruct blk; cbn [truthy]; cbv beta iota zeta; intros [= <-] _;
    reflexivity.
Qed.

(** C9, as the claim states it, fails for [<p>]: the line made of a strip
    span of content [c] is a paragraph block of one line, which the inline
    rewriter turns into the empty string, and [main] writes the wrapper
    [<p>], two line feeds, [</p>], the text of an empty paragraph. *)
Lemma paragraph_wrapper_can_be_empty :
  convert_paragraph [] = py "<p>" ++ nl ++ nl ++ py "</p>" /\
  fragments [py "((c))"] = Some [convert_paragraph []] /\
  main [py "((c))"] = Some (py "<p>" ++ nl ++ nl ++ py "</p>") /\
  ~ (forall lines frags, fragments lines = Some frags ->
       Forall (fun frag => frag <> convert_unordered_list []
                           /\ frag <> convert_ordered_list []
                           /\ frag <> convert_paragraph []) frags).
Proof.
  split; [vm_compute; reflexivity|].
  split; [vm_compute; reflexivity|].
  split; [vm_compute; reflexivity|].
  intros H.
  specialize (H [py "((c))"] [convert_paragraph []]
                ltac:(vm_compute; reflexivity)).
  inversion H as [|? ? (_ & _ & Hp) _]. now apply Hp.
Qed.

(** C9, amended: [main] does not raise and every fragment that it emits is
    the rendering of a block of the state machine that has at least one
    line, all of the kind of the block; no fragment is an empty [<ul>] or
    [<ol>] wrapper.  A value of [current_type] left over while the
    accumulator is empty changes neither the fragments nor the accumulator
    of the next step, and the accumulator is empty after a heading line and
    after a blank line. *)
Theorem fragments_from_nonempty_blocks (lines : list str) :
  (exists frags,
     fragments lines = Some frags /\
     Spec.render_blocks (Spec.blocks lines) = Some frags /\
     Forall well_formed (Spec.blocks lines) /\
     Forall (fun frag => frag <> convert_unordered_list []
                         /\ frag <> convert_ordered_list []) frags) /\
  (forall html ty ty' line,
     match step (mkState html [] ty) line,
           step (mkState html [] ty') line with
     | Some s1, Some s2 =>
         html_lines s1 = html_lines s2 /\
         current_block s1 = current_block s2 /\
         (current_block s1 <> [] -> current_type s1 = current_type s2)
     | None, None => True
     | _, _ => False
     end) /\
  (forall st st' line,
     step st line = Some st' ->
     Spec.classify (rstrip line) = Some Spec.Heading
     \/ Spec.classify (rstrip line) = None ->
     current_block st' = []).
Proof.
  split; [|split; [apply step_stale_type|apply step_closes]].
  destruct (fragments_of_blocks lines) as (frags & E & Hb & Hw).
  exists frags. repeat split; try assumption.
  now apply (render_blocks_not_empty_list _ _ Hw).
Qed.

(** * Further properties of the code *)

(** ** Headings *)

Lemma split_from_nil (cur s : str) :
  split_from cur s = [] <-> cur = [] /\ forallb isspace s = true.
Proof.
  revert cur; induction s as [|a s IH]; intros cur; simpl.
  - destruct cur; split; easy.
  - destruct (isspace a); simpl.
    + destruct cur; [rewrite IH; tauto|].
      split; [discriminate|]. intros [? _]. discriminate.
    + rewrite IH. split; intros [? ?]; discriminate.
Qed.

(** X1: [convert_heading] raises, on [line.split()[0]], exactly on the
    lines made of whitespace only, the empty line among them; it never
    raises on a line that starts with a hash. *)
Theorem convert_heading_raises_on_blank (line : str) :
  (convert_heading line = None <-> forallb isspace line = true) /\
  (startswith (py "#") line = true -> convert_heading line <> None).
Proof.
  split.
  - unfold convert_heading, split.
    destruct (split_from [] line) as [|tok more] eqn:E; simpl.
    + apply split_from_nil in E as [_ E]. now split.
    + split; [discriminate|]. intros H.
      assert (E' : split_from [] line = []) by now apply split_from_nil.
      congruence.
  - intros H. destruct (convert_heading_some line H) as [h ->]. discriminate.
Qed.

Lemma convert_heading_raises_on_blank_witness :
  convert_heading (py "#x") <> None.
Proof.
  refine (proj2 (convert_heading_raises_on_blank (py "#x")) _). reflexivity.
Defined.

(** X2: on a line made of [n] hashes, [n] at least 1, followed by
    whitespace or by the end of the line, [convert_heading] emits the
    heading of level [n]; its text is the rest of the line, trimmed and
    otherwise as it is: the inline rewriter is not applied to it. *)
Theorem convert_heading_hashes (n : nat) (rest : str) :
  0 < n -> token_end rest = true ->
  convert_heading (repeat "#"%char n ++ rest) =
    Some (py "<h" ++ str_of_nat n ++ py ">" ++ strip rest
            ++ py "</h" ++ str_of_nat n ++ py ">").
Proof.
  intros Hn Hrest. rewrite convert_heading_agrees by assumption.
  unfold Spec.heading.
  assert (Hs : startswith ["#"%char] rest = false).
  { destruct rest as [|c rest]; [reflexivity|]. simpl in *.
    rewrite andb_true_r. apply chr_eqb_neq. intros <-. discriminate. }
  rewrite count_leading_repeat by exact Hs.
  unfold lstrip_chars. rewrite dropwhile_app_all by now apply forallb_repeat.
  destruct rest as [|c rest]; [reflexivity|].
  simpl in Hs. rewrite andb_true_r in Hs.
  simpl dropwhile. rewrite orb_false_r.
  unfold chr_eqb in *. rewrite Ascii.eqb_sym in Hs. now rewrite Hs.
Qed.

Lemma convert_heading_hashes_witness :
  convert_heading (repeat "#"%char 3 ++ py " **not bold**  ") =
    Some (py "<h" ++ str_of_nat 3 ++ py ">" ++ strip (py " **not bold**  ")
            ++ py "</h" ++ str_of_nat 3 ++ py ">").
Proof.
  apply (convert_heading_hashes 3 (py " **not bold**  ")); [lia|reflexivity].
Defined.

(** ** The inline rewriter on one span *)

Lemma free_has_span (o c : ascii) (s : str) :
  free_of o s = true -> has_span o c s = false.
Proof.
  induction s as [|x s IH]; [reflexivity|].
  intros H. apply free_of_cons in H as [Hx Hs].
  destruct s as [|y t]; [reflexivity|].
  rewrite has_span_cons, (IH Hs).
  replace (chr_eqb x o) with false by (symmetry; now apply chr_eqb_neq).
  reflexivity.
Qed.

Lemma span_not_free (d : ascii) (g r : str) :
  free_of d g = true -> span_not d (g ++ d :: r) = (g, d :: r).
Proof.
  induction g as [|a g IH]; intros H; simpl.
  - now rewrite chr_eqb_refl.
  - apply free_of_cons in H as [Ha Hg].
    replace (chr_eqb a d) with false by (symmetry; now apply chr_eqb_neq).
    now rewrite (IH Hg).
Qed.

Lemma match_pair_not_open (d x : ascii) (s : str) :
  x <> d -> match_pair d (x :: s) = None.
Proof.
  intros H. destruct s as [|y t]; [reflexivity|]. unfold match_pair.
  replace (chr_eqb x d) with false by (symmetry; now apply chr_eqb_neq).
  reflexivity.
Qed.

(** [re.sub] on a text that begins with plain characters and a span. *)
Lemma re_sub_pair_span (d : ascii) (pre post u g r : str) :
  g <> [] -> free_of d u = true -> free_of d g = true ->
  re_sub_pair d pre post (u ++ d :: d :: g ++ d :: d :: r) =
    u ++ pre ++ g ++ post ++ re_sub_pair d pre post r.
Proof.
  intros Hne Hu Hg. induction u as [|a u IH].
  - simpl app. rewrite re_sub_pair_cons. unfold match_pair.
    rewrite !chr_eqb_refl, span_not_free by exact Hg.
    destruct g as [|b g]; [congruence|]. rewrite !chr_eqb_refl.
    cbn [andb]. do 3 f_equal.
    change (d :: (b :: g) ++ d :: d :: r)
      with ((d :: b :: g) ++ [d; d] ++ r).
    rewrite app_assoc.
    replace (length (b :: g) + 3) with (length ((d :: b :: g) ++ [d; d]))
      by (rewrite length_app; simpl; lia).
    now rewrite skipn_app, skipn_all, Nat.sub_diag.
  - apply free_of_cons in Hu as [Ha Hu]. simpl app.
    rewrite re_sub_pair_cons, match_pair_not_open by exact Ha.
    f_equal. now apply IH.
Qed.

Lemma re_sub_pair_free (d : ascii) (pre post s : str) :
  free_of d s = true -> re_sub_pair d pre post s = s.
Proof.
  intros H. apply re_sub_pair_unterminated. now apply free_has_span.
Qed.

Lemma plain_inv (s : str) :
  plain s = true ->
  free_of "*" s = true /\ free_of "_" s = true /\
  free_of "[" s = true /\ free_of "(" s = true.
Proof.
  unfold plain. rewrite !andb_true_iff. tauto.
Qed.

Lemma hash_pass_free (s : str) : free_of "[" s = true -> hash_pass s = s.
Proof.
  intros H. unfold hash_pass.
  now rewrite findall_lazy_unterminated by now apply free_has_span.
Qed.

Lemma strip_pass_free (s : str) : free_of "(" s = true -> strip_pass s = s.
Proof.
  intros H. unfold strip_pass.
  now rewrite findall_lazy_unterminated by now apply free_has_span.
Qed.

Ltac free_of_parts :=
  repeat (apply free_of_app; split); try assumption; try reflexivity.

(** X3: in a line whose only markup is one bold span, or one emphasis
    span, with a non-empty content, the inline rewriter wraps the content
    in [<b>] or in [<em>] and leaves the rest of the line as it is. *)
Theorem inline_rewriter_bold_emphasis (u g r : str) :
  g <> [] -> plain u = true -> plain g = true -> plain r = true ->
  process_inline_markup (u ++ py "**" ++ g ++ py "**" ++ r) =
    u ++ py "<b>" ++ g ++ py "</b>" ++ r /\
  process_inline_markup (u ++ py "__" ++ g ++ py "__" ++ r) =
    u ++ py "<em>" ++ g ++ py "</em>" ++ r.
Proof.
  intros Hne Hu Hg Hr.
  apply plain_inv in Hu as (Hu1 & Hu2 & Hu3 & Hu4).
  apply plain_inv in Hg as (Hg1 & Hg2 & Hg3 & Hg4).
  apply plain_inv in Hr as (Hr1 & Hr2 & Hr3 & Hr4).
  unfold process_inline_markup. split.
  - unfold bold_pass at 1.
    change (u ++ py "**" ++ g ++ py "**" ++ r)
      with (u ++ "*"%char :: "*"%char :: g ++ "*"%char :: "*"%char :: r).
    rewrite re_sub_pair_span, (re_sub_pair_free _ _ _ r) by assumption.
    unfold emphasis_pass. rewrite re_sub_pair_free by free_of_parts.
    rewrite hash_pass_free by free_of_parts.
    now rewrite strip_pass_free by free_of_parts.
  - unfold bold_pass. rewrite re_sub_pair_free by free_of_parts.
    unfold emphasis_pass at 1.
    change (u ++ py "__" ++ g ++ py "__" ++ r)
      with (u ++ "_"%char :: "_"%char :: g ++ "_"%char :: "_"%char :: r).
    rewrite re_sub_pair_span, (re_sub_pair_free _ _ _ r) by assumption.
    rewrite hash_pass_free by free_of_parts.
    now rewrite strip_pass_free by free_of_parts.
Qed.

Lemma inline_rewriter_bold_emphasis_witness :
  process_inline_markup (py "a " ++ py "**" ++ py "b c" ++ py "**" ++ py " d")
    = py "a " ++ py "<b>" ++ py "b c" ++ py "</b>" ++ py " d".
Proof.
  refine (proj1 (inline_rewriter_bold_emphasis
                   (py "a ") (py "b c") (py " d") _ _ _ _));
    [discriminate|reflexivity..].
Defined.

Lemma findall_lazy_span (o c : ascii) (u g r : str) :
  free_of o u = true -> span_content c g ->
  findall_lazy o c (u ++ literal o c g ++ r) = g :: findall_lazy o c r.
Proof.
  intros Hu Hg. induction u as [|a u IH].
  - pose proof (match_lazy_literal o c g r Hg) as E.
    pose proof (skipn_literal o c g r) as Hs.
    unfold literal in *. simpl app in *.
    rewrite findall_lazy_cons, E. f_equal. f_equal.
    replace (length g + 4) with (S (length g + 3)) in Hs by lia.
    exact Hs.
  - apply free_of_cons in Hu as [Ha Hu]. simpl app.
    rewrite findall_lazy_cons, match_lazy_not_open by exact Ha.
    now apply IH.
Qed.

(** One span between plain texts: the loop of a pass replaces it. *)
Lemma loop_one_span (o c : ascii) (f : str -> str) (u g r : str) :
  free_of o u = true -> free_of o r = true -> span_content c g ->
  fold_left (fun t m => replace (literal o c m) (f m) t)
            (findall_lazy o c (u ++ literal o c g ++ r))
            (u ++ literal o c g ++ r) =
    u ++ f g ++ r.
Proof.
  intros Hu Hr Hg. rewrite findall_lazy_span by assumption.
  rewrite (findall_lazy_unterminated o c r) by now apply free_has_span.
  cbn [fold_left].
  rewrite replace_literal_free, replace_literal_here by assumption.
  rewrite <- (app_nil_r r) at 1.
  now rewrite replace_literal_free, replace_literal_nil, app_nil_r.
Qed.

(** X4: in a line whose only markup is one hash span, or one strip span,
    with a content that has no closing character and no line feed, the
    inline rewriter puts the MD5 digest of the content, or the content
    without its [c] and [C], at the place of the span and leaves the rest of
    the line as it is. *)
Theorem inline_rewriter_hash_strip (u g r : str) :
  plain u = true -> plain g = true -> plain r = true ->
  free_of newline g = true ->
  (free_of "]" g = true ->
   process_inline_markup (u ++ py "[[" ++ g ++ py "]]" ++ r) =
     u ++ MD5.hexdigest (encode g) ++ r) /\
  (free_of ")" g = true ->
   process_inline_markup (u ++ py "((" ++ g ++ py "))" ++ r) =
     u ++ remove_c g ++ r).
Proof.
  intros Hu Hg Hr Hn.
  apply plain_inv in Hu as (Hu1 & Hu2 & Hu3 & Hu4).
  apply plain_inv in Hg as (Hg1 & Hg2 & Hg3 & Hg4).
  apply plain_inv in Hr as (Hr1 & Hr2 & Hr3 & Hr4).
  unfold process_inline_markup. split; intros Hc.
  - unfold bold_pass. rewrite re_sub_pair_free by free_of_parts.
    unfold emphasis_pass. rewrite re_sub_pair_free by free_of_parts.
    rewrite hash_pass_loop.
    replace (u ++ py "[[" ++ g ++ py "]]" ++ r)
      with (u ++ literal "[" "]" g ++ r)
      by (unfold literal; simpl; now rewrite <- app_assoc).
    rewrite (loop_one_span "[" "]" (fun m => MD5.hexdigest (encode m)))
      by (try apply content_free; assumption).
    apply strip_pass_free. free_of_parts.
    apply lower_hex_free; [reflexivity|apply hexdigest_format].
  - unfold bold_pass. rewrite re_sub_pair_free by free_of_parts.
    unfold emphasis_pass. rewrite re_sub_pair_free by free_of_parts.
    rewrite hash_pass_free by free_of_parts.
    rewrite strip_pass_loop.
    replace (u ++ py "((" ++ g ++ py "))" ++ r)
      with (u ++ literal "(" ")" g ++ r)
      by (unfold literal; simpl; now rewrite <- app_assoc).
    apply loop_one_span; try apply content_free; assumption.
Qed.

Lemma inline_rewriter_hash_strip_witness :
  process_inline_markup
    (py "a " ++ py "((" ++ py "Cc x" ++ py "))" ++ py " c") =
    py "a " ++ remove_c (py "Cc x") ++ py " c".
Proof.
  refine (proj2 (inline_rewriter_hash_strip
                   (py "a ") (py "Cc x") (py " c") _ _ _ _) _);
    reflexivity.
Defined.

(** ** Trailing whitespace *)

Lemma dropwhile_idem (f : ascii -> bool) (s : str) :
  dropwhile f (dropwhile f s) = dropwhile f s.
Proof.
  induction s as [|a s IH]; [reflexivity|]. simpl.
  destruct (f a) eqn:E; [exact IH|]. simpl. now rewrite E.
Qed.

Lemma rstrip_idem (s : str) : rstrip (rstrip s) = rstrip s.
Proof. unfold rstrip. now rewrite rev_involutive, dropwhile_idem. Qed.

Lemma step_rstrip (st : state) (line : str) :
  step st (rstrip line) = step st line.
Proof. unfold step. now rewrite rstrip_idem. Qed.

Lemma scan_rstrip (lines : list str) :
  forall st, scan st (map rstrip lines) = scan st lines.
Proof.
  induction lines as [|l lines IH]; intros st; [reflexivity|].
  cbn [map scan]. rewrite step_rstrip.
  destruct (step st l); [apply IH|reflexivity].
Qed.

Lemma main_rstrip (lines lines' : list str) :
  map rstrip lines = map rstrip lines' -> main lines = main lines'.
Proof.
  intros H. unfold main, fragments.
  now rewrite <- (scan_rstrip lines), <- (scan_rstrip lines'), H.
Qed.

(** X5: the text that [main] writes depends on the lines only through
    their text without trailing whitespace: two inputs whose lines differ by
    trailing whitespace (spaces, tabs, the line feed or its absence) give
    the same output. *)
Theorem main_ignores_trailing_whitespace (lines lines' : list str) :
  map rstrip lines = map rstrip lines' -> main lines = main lines'.
Proof. apply main_rstrip. Qed.

Lemma main_ignores_trailing_whitespace_witness :
  main [py "# Title  "; py "- one"] =
    main [py "# Title"; "-"%char :: " "%char :: py "one" ++ [newline]].
Proof.
  apply main_ignores_trailing_whitespace. reflexivity.
Defined.

(** ** Fragments already emitted and a stale [current_type] *)

Lemma step_after_fragments (before : list str) (st : state) (line : str) :
  step (after_fragments before st) line =
    option_map (after_fragments before) (step st line).
Proof.
  destruct st as [html blk ty]. unfold step, after_fragments.
  cbn [html_lines current_block current_type].
  destruct (startswith (py "#") (rstrip line)).
  { destruct blk; cbn [truthy]; cbv beta iota zeta.
    - destruct (convert_heading (rstrip line)); cbn [option_map];
        [|reflexivity].
      cbn [html_lines current_block current_type]. now rewrite app_assoc.
    - destruct (convert_heading (rstrip line)); cbn [option_map];
        [|reflexivity].
      cbn [html_lines current_block current_type].
      destruct ty as [[]|]; now rewrite ?app_assoc. }
  destruct (startswith (py "- ") (rstrip line)).
  { destruct blk, ty as [[]|]; cbn [truthy type_is block_type_eqb negb andb];
      cbv beta iota zeta; cbn [option_map html_lines current_block
                                 current_type];
      now rewrite ?app_assoc. }
  destruct (startswith (py "* ") (rstrip line)).
  { destruct blk, ty as [[]|]; cbn [truthy type_is block_type_eqb negb andb];
      cbv beta iota zeta; cbn [option_map html_lines current_block
                                 current_type];
      now rewrite ?app_assoc. }
  destruct (truthy (rstrip line)).
  { destruct blk, ty as [[]|]; cbn [truthy type_is block_type_eqb negb andb];
      cbv beta iota zeta; cbn [option_map html_lines current_block
                                 current_type];
      now rewrite ?app_assoc. }
  destruct blk, ty as [[]|]; cbn [truthy option_map html_lines current_block
                                    current_type];
    now rewrite ?app_assoc.
Qed.

Lemma scan_after_fragments (before : list str) (lines : list str) :
  forall st,
    scan (after_fragments before st) lines =
      option_map (after_fragments before) (scan st lines).
Proof.
  induction lines as [|l lines IH]; intros st; [reflexivity|].
  cbn [scan]. rewrite step_after_fragments.
  destruct (step st l); [apply IH|reflexivity].
Qed.

Lemma last_block_after_fragments (before : list str) (st : state) :
  last_block (after_fragments before st) = before ++ last_block st.
Proof.
  destruct st as [html blk ty]. unfold last_block, after_fragments.
  cbn [html_lines current_block current_type].
  destruct blk, ty as [[]|]; cbn [truthy]; now rewrite ?app_assoc.
Qed.

Lemma same_block_refl (st : state) : same_block st st.
Proof. repeat split. Qed.

Lemma step_same_block (st1 st2 : state) (line : str) :
  same_block st1 st2 ->
  match step st1 line, step st2 line with
  | Some s1, Some s2 => same_block s1 s2
  | None, None => True
  | _, _ => False
  end.
Proof.
  destruct st1 as [html1 blk1 ty1], st2 as [html2 blk2 ty2].
  intros (Hh & Hb & Ht). simpl in Hh, Hb, Ht. subst html2 blk2.
  destruct blk1 as [|l0 blk].
  - apply step_stale_type.
  - rewrite (Ht ltac:(discriminate)).
    destruct (step _ line); [apply same_block_refl|exact I].
Qed.

Lemma scan_same_block (lines : list str) :
  forall st1 st2, same_block st1 st2 ->
    match scan st1 lines, scan st2 lines with
    | Some s1, Some s2 => same_block s1 s2
    | None, None => True
    | _, _ => False
    end.
Proof.
  induction lines as [|l lines IH]; intros st1 st2 H; cbn [scan].
  - exact H.
  - pose proof (step_same_block st1 st2 l H) as Hs.
    destruct (step st1 l), (step st2 l); try easy. now apply IH.
Qed.

Lemma last_block_same_block (st1 st2 : state) :
  same_block st1 st2 -> last_block st1 = last_block st2.
Proof.
  destruct st1 as [html1 blk1 ty1], st2 as [html2 blk2 ty2].
  intros (Hh & Hb & Ht). simpl in Hh, Hb, Ht. subst html2 blk2.
  unfold last_block. destruct blk1 as [|l0 blk]; [reflexivity|].
  now rewrite (Ht ltac:(discriminate)).
Qed.

(** The scanner, restarted after a line that closed the open block, goes
    on as from the initial state, with the fragments emitted so far in
    front. *)
Lemma scan_restart (before : list str) (ty : option block_type)
    (lines : list str) (frags : list str) :
  fragments lines = Some frags ->
  option_map last_block (scan (mkState before [] ty) lines) =
    Some (before ++ frags).
Proof.
  unfold fragments. intros H.
  destruct (scan initial_state lines) as [st2|] eqn:E2; [|discriminate].
  injection H as <-.
  assert (Hs : same_block (mkState before [] ty)
                          (after_fragments before initial_state)).
  { unfold after_fragments, initial_state, same_block. simpl.
    rewrite app_nil_r. repeat split. congruence. }
  pose proof (scan_same_block lines _ _ Hs) as Hsc.
  rewrite scan_after_fragments, E2 in Hsc. cbn [option_map] in Hsc.
  destruct (scan (mkState before [] ty) lines) as [st'|]; [|easy].
  cbn [option_map]. f_equal.
  rewrite (last_block_same_block _ _ Hsc).
  apply last_block_after_fragments.
Qed.

Lemma fragments_at_blank (l1 l2 : list str) (blank : str)
    (f1 f2 : list str) :
  rstrip blank = [] ->
  fragments l1 = Some f1 -> fragments l2 = Some f2 ->
  fragments (l1 ++ blank :: l2) = Some (f1 ++ f2).
Proof.
  intros Hb H1 H2.
  unfold fragments in H1 |- *. rewrite scan_app.
  destruct (scan initial_state l1) as [st1|]; [|discriminate].
  injection H1 as <-. cbn [scan]. rewrite step_blank by exact Hb.
  destruct st1 as [html [|l0 blk] ty]; cbn [current_block].
  - now apply scan_restart.
  - now apply scan_restart.
Qed.

(** X6: a blank line cuts the input in two parts that are rendered each on
    its own: the fragments of the whole are the fragments of the lines
    before the blank line followed by the fragments of the lines after it.
    A blank line at the start or at the end of the input adds nothing. *)
Theorem fragments_split_at_blank (l1 l2 : list str) (blank : str)
    (f1 f2 : list str) :
  rstrip blank = [] ->
  fragments l1 = Some f1 -> fragments l2 = Some f2 ->
  fragments (l1 ++ blank :: l2) = Some (f1 ++ f2) /\
  main (l1 ++ blank :: l2) = Some (join nl (f1 ++ f2)) /\
  fragments (blank :: l2) = Some f2 /\
  fragments (l1 ++ [blank]) = Some f1.
Proof.
  intros Hb H1 H2.
  pose proof (fragments_at_blank l1 l2 blank f1 f2 Hb H1 H2) as G.
  split; [exact G|]. split; [unfold main; now rewrite G|]. split.
  - exact (fragments_at_blank [] l2 blank [] f2 Hb eq_refl H2).
  - pose proof (fragments_at_blank l1 [] blank f1 [] Hb H1 eq_refl) as G1.
    now rewrite app_nil_r in G1.
Qed.

Lemma fragments_split_at_blank_witness :
  fragments ([py "a"; py ""] ++ py " " :: [py "- b"]) =
    Some ([convert_paragraph [py "a"]] ++ [convert_unordered_list [py "- b"]]).
Proof.
  refine (proj1 (fragments_split_at_blank _ _ _ _ _ _ _ _));
    reflexivity.
Defined.

(** X7: a heading line cuts the input in the same way: the fragments of
    the whole are the fragments of the lines before it, the heading, and
    the fragments of the lines after it; lines of one kind before and after
    a heading are never merged into one block. *)
Theorem fragments_split_at_heading (l1 l2 : list str) (line heading : str)
    (f1 f2 : list str) :
  startswith (py "#") (rstrip line) = true ->
  convert_heading (rstrip line) = Some heading ->
  fragments l1 = Some f1 -> fragments l2 = Some f2 ->
  fragments (l1 ++ line :: l2) = Some (f1 ++ heading :: f2) /\
  main (l1 ++ line :: l2) = Some (join nl (f1 ++ heading :: f2)).
Proof.
  intros Hs Hh H1 H2.
  assert (G : fragments (l1 ++ line :: l2) = Some (f1 ++ heading :: f2)).
  { unfold fragments in H1 |- *. rewrite scan_app.
    destruct (scan initial_state l1) as [st1|]; [|discriminate].
    injection H1 as <-. cbn [scan].
    assert (E : step st1 line =
                Some (mkState (last_block st1 ++ [heading]) []
                              (current_type st1))).
    { destruct st1 as [html blk ty]. unfold step, last_block.
      rewrite Hs. destruct blk; cbn [truthy]; cbv beta iota zeta;
        rewrite Hh; reflexivity. }
    rewrite E, (scan_restart _ _ _ _ H2).
    now rewrite <- app_assoc. }
  split; [exact G|]. unfold main. now rewrite G.
Qed.

Lemma fragments_split_at_heading_witness :
  fragments ([py "a"] ++ py "# T" :: [py "b"]) =
    Some ([convert_paragraph [py "a"]] ++ py "<h1>T</h1>"
            :: [convert_paragraph [py "b"]]).
Proof.
  refine (proj1 (fragments_split_at_heading _ _ _ _ _ _ _ _ _ _));
    reflexivity.
Defined.

(** ** Runs of lines of one kind *)

Ltac classify_tests H Hk :=
  unfold Spec.classify in H;
  destruct (startswith (py "#") (rstrip _));
    [injection H as <-; discriminate Hk|];
  destruct (startswith (py "- ") (rstrip _));
    [|destruct (startswith (py "* ") (rstrip _));
        [|destruct (truthy (rstrip _)); [|discriminate H]]].

(** A line of a kind that accumulates, met with an empty accumulator,
    opens a block, whatever [current_type] holds. *)
Lemma step_run_first (k : Spec.kind) (ty : block_type)
    (html : list str) (ty0 : option block_type) (line : str) :
  type_of_kind k = Some ty ->
  Spec.classify (rstrip line) = Some k ->
  step (mkState html [] ty0) line = Some (mkState html [rstrip line] (Some ty)).
Proof.
  intros Hk H. unfold step. classify_tests H Hk;
    injection H as <-; injection Hk as <-;
    rewrite ?andb_false_r; reflexivity.
Qed.

(** A line of the kind of the open block joins it. *)
Lemma step_run_next (k : Spec.kind) (ty : block_type)
    (html blk : list str) (line : str) :
  type_of_kind k = Some ty ->
  Spec.classify (rstrip line) = Some k ->
  step (mkState html blk (Some ty)) line =
    Some (mkState html (blk ++ [rstrip line]) (Some ty)).
Proof.
  intros Hk H. unfold step. classify_tests H Hk;
    injection H as <-; injection Hk as <-; reflexivity.
Qed.

(** A line of another kind that accumulates closes the open block and
    opens one of its kind. *)
Lemma step_run_switch (k : Spec.kind) (ty ty' : block_type)
    (html blk : list str) (line : str) :
  type_of_kind k = Some ty ->
  Spec.classify (rstrip line) = Some k ->
  blk <> [] -> ty' <> ty ->
  step (mkState html blk (Some ty')) line =
    Some (mkState (html ++ [flush_as ty' blk]) [rstrip line] (Some ty)).
Proof.
  intros Hk H Hb Hty. destruct blk as [|l0 blk]; [congruence|].
  unfold step. classify_tests H Hk;
    injection H as <-; injection Hk as <-;
    destruct ty'; try congruence; reflexivity.
Qed.

Lemma scan_run_next (k : Spec.kind) (ty : block_type) (ls : list str) :
  type_of_kind k = Some ty ->
  Forall (fun l => Spec.classify (rstrip l) = Some k) ls ->
  forall html blk,
    scan (mkState html blk (Some ty)) ls =
      Some (mkState html (blk ++ map rstrip ls) (Some ty)).
Proof.
  intros Hk. induction 1 as [|l ls Hl _ IH]; intros html blk; cbn [scan map].
  - now rewrite app_nil_r.
  - rewrite (step_run_next k ty) by assumption. rewrite IH.
    now rewrite <- app_assoc.
Qed.

Lemma scan_run_first (k : Spec.kind) (ty : block_type) (ls : list str) :
  type_of_kind k = Some ty -> ls <> [] ->
  Forall (fun l => Spec.classify (rstrip l) = Some k) ls ->
  forall html ty0,
    scan (mkState html [] ty0) ls =
      Some (mkState html (map rstrip ls) (Some ty)).
Proof.
  intros Hk Hne H html ty0. destruct ls as [|l ls]; [congruence|].
  inversion H as [|? ? Hl Hls]; subst. cbn [scan map].
  rewrite (step_run_first k ty) by assumption.
  now rewrite (scan_run_next k ty).
Qed.

(** X8: an input made of one run of lines of one kind, unordered list,
    ordered list or paragraph, is rendered as one block, by the renderer of
    that kind, on the lines without their trailing whitespace. *)
Theorem run_is_one_block (k : Spec.kind) (ty : block_type) (ls : list str) :
  type_of_kind k = Some ty -> ls <> [] ->
  Forall (fun l => Spec.classify (rstrip l) = Some k) ls ->
  fragments ls = Some [flush_as ty (map rstrip ls)] /\
  main ls = Some (flush_as ty (map rstrip ls)).
Proof.
  intros Hk Hne H.
  assert (G : fragments ls = Some [flush_as ty (map rstrip ls)]).
  { unfold fragments, initial_state.
    rewrite (scan_run_first k ty) by assumption.
    destruct ls as [|l ls]; [congruence|]. now destruct ty. }
  split; [exact G|]. unfold main. now rewrite G.
Qed.

Lemma run_is_one_block_witness :
  main [py "* one  "; py "* two"] =
    Some (flush_as ol (map rstrip [py "* one  "; py "* two"])).
Proof.
  refine (proj2 (run_is_one_block Spec.OrderedList ol _ _ _ _));
    [reflexivity|discriminate|repeat constructor].
Defined.

(** X9: a line of another kind closes the open block: when a run of lines
    of one kind is followed by a line of another kind that accumulates, the
    run is rendered as one block and the rest of the input, from that line
    on, is rendered as if it stood alone. *)
Theorem run_closed_by_other_kind (k1 k2 : Spec.kind) (ty1 ty2 : block_type)
    (run : list str) (line : str) (rest : list str) (frags : list str) :
  type_of_kind k1 = Some ty1 -> type_of_kind k2 = Some ty2 -> ty1 <> ty2 ->
  run <> [] ->
  Forall (fun l => Spec.classify (rstrip l) = Some k1) run ->
  Spec.classify (rstrip line) = Some k2 ->
  fragments (line :: rest) = Some frags ->
  fragments (run ++ line :: rest) =
    Some (flush_as ty1 (map rstrip run) :: frags).
Proof.
  intros Hk1 Hk2 Hty Hne Hrun Hl Hf.
  unfold fragments, initial_state in Hf |- *.
  rewrite scan_app, (scan_run_first k1 ty1) by assumption.
  cbn [scan] in Hf |- *.
  rewrite (step_run_first k2 ty2) in Hf by assumption.
  rewrite (step_run_switch k2 ty2 ty1);
    [|assumption..|now destruct run|exact Hty].
  change (mkState ([] ++ [flush_as ty1 (map rstrip run)]) [rstrip line]
                  (Some ty2))
    with (after_fragments [flush_as ty1 (map rstrip run)]
            (mkState [] [rstrip line] (Some ty2))).
  rewrite scan_after_fragments.
  destruct (scan (mkState [] [rstrip line] (Some ty2)) rest) as [st|];
    [|discriminate].
  cbn [option_map] in Hf |- *. injection Hf as <-.
  now rewrite last_block_after_fragments.
Qed.

Lemma run_closed_by_other_kind_witness :
  fragments ([py "- a"; py "- b"] ++ py "* c" :: [py "text"]) =
    Some (flush_as ul (map rstrip [py "- a"; py "- b"])
            :: [convert_ordered_list [py "* c"];
                convert_paragraph [py "text"]]).
Proof.
  refine (run_closed_by_other_kind Spec.UnorderedList Spec.OrderedList
            ul ol _ _ _ _ _ _ _ _ _ _ _);
    try reflexivity; try discriminate; repeat constructor.
Defined.

(** ** A marker without text *)

Lemma dropwhile_all (f : ascii -> bool) (s : str) :
  forallb f s = true -> dropwhile f s = [].
Proof.
  induction s as [|a s IH]; [reflexivity|]. simpl.
  intros H. apply andb_true_iff in H as [Ha Hs]. rewrite Ha. now apply IH.
Qed.

Lemma forallb_rev_true (f : ascii -> bool) (s : str) :
  forallb f s = true -> forallb f (rev s) = true.
Proof.
  induction s as [|a s IH]; [reflexivity|]. simpl.
  intros H. apply andb_true_iff in H as [Ha Hs].
  rewrite forallb_app, (IH Hs). simpl. now rewrite Ha.
Qed.

Lemma rstrip_marker (m : ascii) (ws : str) :
  isspace m = false -> forallb isspace ws = true -> rstrip (m :: ws) = [m].
Proof.
  intros Hm Hws. unfold rstrip. simpl rev.
  rewrite dropwhile_app_all by now apply forallb_rev_true.
  simpl. now rewrite Hm.
Qed.

(** X10: a list marker with nothing but whitespace after it is not a list
    item: the trimmed line is the marker character alone, which is rendered
    as a paragraph. *)
Theorem marker_without_text_is_paragraph (ws : str) :
  forallb isspace ws = true ->
  main ["-"%char :: ws] =
    Some (py "<p>" ++ nl ++ py "-" ++ nl ++ py "</p>") /\
  main ["*"%char :: ws] =
    Some (py "<p>" ++ nl ++ py "*" ++ nl ++ py "</p>").
Proof.
  intros H. split.
  - rewrite (main_rstrip _ [py "-"]); [reflexivity|].
    cbn [map]. now rewrite rstrip_marker.
  - rewrite (main_rstrip _ [py "*"]); [reflexivity|].
    cbn [map]. now rewrite rstrip_marker.
Qed.

Lemma marker_without_text_is_paragraph_witness :
  main ["-"%char :: py "   "] =
    Some (py "<p>" ++ nl ++ py "-" ++ nl ++ py "</p>").
Proof.
  refine (proj1 (marker_without_text_is_paragraph (py "   ") _)).
  reflexivity.
Defined.

(** ** Reading the lines of the input file *)

Lemma translate_newlines_free (s : str) :
  free_of carriage_return s = true -> translate_newlines false s = s.
Proof.
  induction s as [|c s IH]; [reflexivity|].
  intros H. apply free_of_cons in H as [Hc Hs]. cbn [translate_newlines].
  replace (chr_eqb c carriage_return) with false
    by (symmetry; now apply chr_eqb_neq).
  destruct (chr_eqb c newline) eqn:E.
  - apply chr_eqb_eq in E. subst c. now rewrite (IH Hs).
  - now rewrite (IH Hs).
Qed.

Lemma translate_newlines_app (body s : str) :
  free_of carriage_return body = true ->
  translate_newlines false (body ++ s) = body ++ translate_newlines false s.
Proof.
  induction body as [|c body IH]; [reflexivity|].
  intros H. apply free_of_cons in H as [Hc Hb].
  cbn [app translate_newlines].
  replace (chr_eqb c carriage_return) with false
    by (symmetry; now apply chr_eqb_neq).
  destruct (chr_eqb c newline) eqn:E; rewrite (IH Hb); [|reflexivity].
  apply chr_eqb_eq in E. now subst c.
Qed.

Lemma keepends_from_app (body t : str) :
  free_of newline body = true ->
  forall cur, keepends_from cur (body ++ t) = keepends_from (rev body ++ cur) t.
Proof.
  induction body as [|c body IH]; intros H cur; [reflexivity|].
  apply free_of_cons in H as [Hc Hb]. cbn [app keepends_from rev].
  replace (chr_eqb c newline) with false by (symmetry; now apply chr_eqb_neq).
  rewrite (IH Hb), <- app_assoc. reflexivity.
Qed.

(** A line feed that does not follow a carriage return is written, so the
    flag [pending_cr] matters only in front of a line feed. *)
Lemma translate_newlines_pending (s : str) :
  startswith [newline] s = false ->
  translate_newlines true s = translate_newlines false s.
Proof.
  destruct s as [|c s]; [reflexivity|].
  cbn [startswith]. rewrite andb_true_r. intros H.
  cbn [translate_newlines].
  assert (E : chr_eqb c newline = false).
  { apply chr_eqb_neq. intros ->. now rewrite chr_eqb_refl in H. }
  now rewrite E.
Qed.

(** X11: [readlines] cuts the content at its line ends.  A line feed, a
    carriage return followed by a line feed, and a carriage return alone
    each end a line, and the line is returned with one line feed in their
    place; what follows is read in the same way; a last line without a line
    end is returned as it is, and an empty content has no line. *)
Theorem readlines_line_ends (body rest : str) :
  free_of newline body = true -> free_of carriage_return body = true ->
  readlines (body ++ newline :: rest) =
    (body ++ [newline]) :: readlines rest /\
  readlines (body ++ carriage_return :: newline :: rest) =
    (body ++ [newline]) :: readlines rest /\
  (startswith [newline] rest = false ->
   readlines (body ++ carriage_return :: rest) =
     (body ++ [newline]) :: readlines rest) /\
  readlines body = match body with [] => [] | _ :: _ => [body] end.
Proof.
  intros Hn Hc. unfold readlines.
  assert (E : forall t,
            keepends_from [] (body ++ newline :: t) =
              (body ++ [newline]) :: keepends_from [] t).
  { intros t. rewrite (keepends_from_app _ _ Hn). cbn [keepends_from].
    rewrite chr_eqb_refl, app_nil_r. cbn [rev].
    now rewrite rev_involutive. }
  split; [|split; [|split]].
  - rewrite (translate_newlines_app _ _ Hc). cbn [translate_newlines].
    change (chr_eqb newline carriage_return) with false.
    rewrite chr_eqb_refl. cbv iota. apply E.
  - rewrite (translate_newlines_app _ _ Hc). cbn [translate_newlines].
    rewrite !chr_eqb_refl.
    change (chr_eqb newline carriage_return) with false. cbv iota. apply E.
  - intros Hr. rewrite (translate_newlines_app _ _ Hc).
    cbn [translate_newlines]. rewrite chr_eqb_refl.
    rewrite (translate_newlines_pending _ Hr). apply E.
  - rewrite (translate_newlines_free _ Hc).
    rewrite <- (app_nil_r body) at 1.
    rewrite (keepends_from_app _ _ Hn). cbn [keepends_from].
    rewrite app_nil_r.
    destruct body as [|c body]; [reflexivity|].
    rewrite rev_involutive.
    destruct (rev (c :: body)) eqn:Er; [|reflexivity].
    apply (f_equal (@length ascii)) in Er. rewrite length_rev in Er.
    discriminate.
Qed.

Lemma readlines_line_ends_witness :
  readlines (py "# T" ++ carriage_return :: newline :: py "text") =
    (py "# T" ++ [newline]) :: readlines (py "text").
Proof.
  refine (proj1 (proj2 (readlines_line_ends (py "# T") (py "text") _ _)));
    reflexivity.
Defined.

Lemma translate_newlines_no_cr (s : str) :
  forall b, free_of carriage_return (translate_newlines b s) = true.
Proof.
  induction s as [|c s IH]; intros b; [reflexivity|].
  cbn [translate_newlines].
  destruct (chr_eqb c carriage_return) eqn:Ec.
  - apply free_of_cons. split; [discriminate|apply IH].
  - apply chr_eqb_neq in Ec.
    destruct (chr_eqb c newline) eqn:En.
    + destruct b; [apply IH|].
      apply free_of_cons. split; [discriminate|apply IH].
    + apply free_of_cons. split; [exact Ec|apply IH].
Qed.

Lemma rstrip_app_newline (x : str) : rstrip (x ++ [newline]) = rstrip x.
Proof. unfold rstrip. now rewrite rev_app_distr. Qed.

Lemma rstrip_prefix (s : str) : exists w, s = rstrip s ++ w.
Proof.
  unfold rstrip.
  assert (G : forall t, exists w, t = w ++ dropwhile isspace t).
  { induction t as [|a t [w Hw]]; [now exists []|]. simpl.
    destruct (isspace a); [|now exists []].
    exists (a :: w). simpl. now rewrite <- Hw. }
  destruct (G (rev s)) as [w Hw]. exists (rev w).
  rewrite <- rev_app_distr, <- Hw. now rewrite rev_involutive.
Qed.

Lemma rstrip_free (x : ascii) (s : str) :
  free_of x s = true -> free_of x (rstrip s) = true.
Proof.
  intros H. destruct (rstrip_prefix s) as [w Hw]. rewrite Hw in H.
  now apply free_of_app in H.
Qed.

Lemma keepends_from_lines (x : ascii) (s : str) :
  forall cur,
    free_of x (rev cur) = true -> free_of x s = true ->
    Forall (fun line => line <> [] /\ free_of x line = true)
           (keepends_from cur s).
Proof.
  induction s as [|c s IH]; intros cur Hcur Hs; cbn [keepends_from].
  - destruct cur as [|a cur]; constructor; [|constructor].
    split; [|exact Hcur]. simpl. now destruct (rev cur).
  - apply free_of_cons in Hs as [Hc Hs].
    assert (Hnew : free_of x (rev (c :: cur)) = true).
    { cbn [rev]. apply free_of_app. split; [exact Hcur|].
      apply free_of_cons. now split. }
    destruct (chr_eqb c newline).
    + constructor; [|now apply IH].
      split; [|exact Hnew]. cbn [rev]. now destruct (rev cur).
    + now apply IH.
Qed.

Lemma keepends_from_one_newline (s : str) :
  forall cur,
    free_of newline (rev cur) = true ->
    Forall (fun line => free_of newline (rstrip line) = true)
           (keepends_from cur s).
Proof.
  induction s as [|c s IH]; intros cur Hcur; cbn [keepends_from].
  - destruct cur as [|a cur]; constructor; [|constructor].
    now apply rstrip_free.
  - destruct (chr_eqb c newline) eqn:E.
    + apply chr_eqb_eq in E. subst c. constructor; [|now apply IH].
      cbn [rev]. rewrite rstrip_app_newline. now apply rstrip_free.
    + apply IH. cbn [rev]. apply free_of_app. split; [exact Hcur|].
      apply free_of_cons. split; [now apply chr_eqb_neq|reflexivity].
Qed.

(** X12: no line that [readlines] returns is empty or holds a carriage
    return, and the text of a line without its trailing whitespace, which
    is what the scanner classifies and the inline rewriter receives, holds
    no line feed. *)
Theorem readlines_lines (content line : str) :
  In line (readlines content) ->
  line <> [] /\ free_of carriage_return line = true /\
  free_of newline (rstrip line) = true.
Proof.
  intros Hin. unfold readlines in Hin.
  pose proof (keepends_from_lines carriage_return
                (translate_newlines false content) [] eq_refl
                (translate_newlines_no_cr content false)) as H1.
  pose proof (keepends_from_one_newline
                (translate_newlines false content) [] eq_refl) as H2.
  rewrite Forall_forall in H1, H2.
  destruct (H1 line Hin) as [Hne Hcr]. repeat split; auto.
Qed.

Lemma readlines_lines_witness :
  py "b" <> [] /\ free_of carriage_return (py "b") = true /\
  free_of newline (rstrip (py "b")) = true.
Proof.
  refine (readlines_lines (py "a" ++ [carriage_return; newline] ++ py "b")
            (py "b") _).
  vm_compute. right. left. reflexivity.
Defined.

(** ** A line feed at the end of the file *)

Lemma translate_newlines_app_newline (s : str) :
  forall b,
    translate_newlines b (s ++ [newline]) =
      translate_newlines b s ++ (if pending_after b s then [] else [newline]).
Proof.
  induction s as [|c s IH]; intros b; cbn [app translate_newlines
                                            pending_after].
  - now destruct b.
  - destruct (chr_eqb c carriage_return).
    + now rewrite IH.
    + destruct (chr_eqb c newline); [destruct b|]; now rewrite IH.
Qed.

(** A line feed added to a translated text adds it to the last line, or
    adds a line made of it. *)
Lemma keepends_from_app_newline (t : str) :
  forall cur, exists extra,
    map rstrip (keepends_from cur (t ++ [newline])) =
      map rstrip (keepends_from cur t) ++ extra /\
    (extra = [] \/ extra = [[]]).
Proof.
  induction t as [|c t IH]; intros cur; cbn [app keepends_from].
  - rewrite chr_eqb_refl. cbn [rev map].
    destruct cur as [|a cur].
    + exists [[]]. split; [reflexivity|now right].
    + exists []. split; [|now left].
      cbn [map app]. now rewrite rstrip_app_newline.
  - destruct (chr_eqb c newline).
    + destruct (IH []) as (extra & E & Hx). exists extra.
      split; [|exact Hx]. cbn [map]. now rewrite E.
    + apply IH.
Qed.

Lemma main_blank_at_end (lines : list str) :
  main (lines ++ [[]]) = main lines.
Proof.
  destruct (fragments_of_blocks lines) as (frags & E & _).
  pose proof (fragments_at_blank lines [] [] frags [] eq_refl E eq_refl)
    as G.
  unfold main.
  replace (fragments (lines ++ [[]])) with (Some (frags ++ []))
    by (symmetry; exact G).
  now rewrite E, app_nil_r.
Qed.

(** X13: a line feed added at the end of the input file does not change
    what [main] writes. *)
Theorem main_ignores_final_newline (content : str) :
  main (readlines (content ++ [newline])) = main (readlines content).
Proof.
  unfold readlines. rewrite translate_newlines_app_newline.
  destruct (pending_after false content); cbv iota;
    [now rewrite app_nil_r|].
  destruct (keepends_from_app_newline (translate_newlines false content) [])
    as (extra & E & [->| ->]).
  - apply main_rstrip. now rewrite E, app_nil_r.
  - rewrite <- (main_blank_at_end
                  (keepends_from [] (translate_newlines false content))).
    apply main_rstrip. now rewrite E, map_app.
Qed.

(** ** A block in its context *)

Lemma type_of_kind_inj (k k' : Spec.kind) (ty : block_type) :
  type_of_kind k = Some ty -> type_of_kind k' = Some ty -> k = k'.
Proof. destruct k, k'; simpl; congruence. Qed.

Lemma classify_heading (line : str) :
  Spec.classify line = Some Spec.Heading -> startswith (py "#") line = true.
Proof.
  unfold Spec.classify.
  destruct (startswith (py "#") line); [reflexivity|].
  destruct (startswith (py "- ") line); [discriminate|].
  destruct (startswith (py "* ") line); [discriminate|].
  destruct (truthy line); discriminate.
Qed.

(** After a line of a kind that accumulates, [current_type] is the type of
    that kind. *)
Lemma step_type_after (st st' : state) (line : str) (k : Spec.kind)
    (ty : block_type) :
  type_of_kind k = Some ty -> Spec.classify (rstrip line) = Some k ->
  step st line = Some st' -> current_type st' = Some ty.
Proof.
  intros Hk H. destruct st as [html blk ty0]. unfold step.
  classify_tests H Hk; injection H as <-; injection Hk as <-;
    match goal with |- context [if ?b then _ else _] => destruct b end;
    intros Hs; injection Hs as <-; reflexivity.
Qed.

(** A line of a kind that accumulates, met with no open block or with an
    open block of another kind, leaves the fragments that the end of the
    input would have left, and opens a block. *)
Lemma step_opens (k : Spec.kind) (ty : block_type) (st : state) (line : str) :
  type_of_kind k = Some ty -> Spec.classify (rstrip line) = Some k ->
  current_block st = []
  \/ (exists ty', current_type st = Some ty' /\ ty' <> ty) ->
  step st line = Some (mkState (last_block st) [rstrip line] (Some ty)).
Proof.
  intros Hk H Hst. destruct st as [html [|l0 blk] ty0].
  - now rewrite (step_run_first k ty).
  - destruct Hst as [Hst|(ty' & Hty & Hne)]; [discriminate Hst|].
    cbn [current_type] in Hty. subst ty0.
    rewrite (step_run_switch k ty ty') by (assumption || discriminate).
    now destruct ty'.
Qed.

(** A line that is not of the kind of the open block closes it; from there
    the scanner goes on as from the initial state, with the fragments
    emitted so far in front. *)
Lemma step_closes_block (k : Spec.kind) (ty : block_type)
    (html blk : list str) (line : str) :
  type_of_kind k = Some ty -> blk <> [] ->
  Spec.classify (rstrip line) <> Some k ->
  match step (mkState html blk (Some ty)) line, step initial_state line with
  | Some a, Some b =>
      same_block a (after_fragments (html ++ [flush_as ty blk]) b)
  | None, None => True
  | _, _ => False
  end.
Proof.
  intros Hk Hb Hl. destruct (Spec.classify (rstrip line)) as [k'|] eqn:Ec.
  - destruct (type_of_kind k') as [ty'|] eqn:Ek'.
    + assert (Hty : ty <> ty').
      { intros ->. apply Hl. f_equal. now apply (type_of_kind_inj _ _ ty'). }
      rewrite (step_run_switch k' ty' ty) by assumption.
      unfold initial_state. rewrite (step_run_first k' ty') by assumption.
      unfold same_block, after_fragments.
      cbn [html_lines current_block current_type].
      now rewrite app_nil_r.
    + destruct k'; try discriminate Ek'. apply classify_heading in Ec.
      destruct blk as [|l0 blk]; [congruence|].
      unfold step, initial_state. rewrite Ec. cbn [truthy].
      cbv beta iota zeta.
      destruct (convert_heading (rstrip line)); [|exact I].
      unfold same_block, after_fragments.
      cbn [html_lines current_block current_type app].
      destruct ty; repeat split; congruence.
  - apply classify_none in Ec. rewrite !step_blank by exact Ec.
    destruct blk as [|l0 blk]; [congruence|].
    unfold initial_state, same_block, after_fragments.
    cbn [html_lines current_block current_type last_block truthy].
    destruct ty; rewrite app_nil_r; repeat split.
Qed.

(** The state of the scanner after a last line that is not of the kind
    [k]: no open block, or an open block of another kind. *)
Lemma scan_ends_other (k : Spec.kind) (ty : block_type) (before : list str)
    (st : state) :
  type_of_kind k = Some ty ->
  Spec.classify (rstrip (last before [])) <> Some k ->
  scan initial_state before = Some st ->
  current_block st = []
  \/ (exists ty', current_type st = Some ty' /\ ty' <> ty).
Proof.
  intros Hk Hl E. destruct before as [|l0 before'] eqn:Eb.
  - injection E as <-. now left.
  - rewrite <- Eb in *.
    destruct (exists_last (l := before)) as (rest & l & ->);
      [now rewrite Eb|].
    clear Eb. rewrite last_last in Hl. rewrite scan_app in E.
    destruct (scan initial_state rest) as [st0|]; [|discriminate].
    cbn [scan] in E. destruct (step st0 l) as [s|] eqn:Es; [|discriminate].
    injection E as ->.
    destruct (Spec.classify (rstrip l)) as [k'|] eqn:Ec.
    + destruct (type_of_kind k') as [ty'|] eqn:Ek'.
      * right. exists ty'.
        split; [exact (step_type_after _ _ _ _ _ Ek' Ec Es)|].
        intros ->. apply Hl. f_equal. now apply (type_of_kind_inj _ _ ty).
      * left. apply (step_closes _ _ _ Es). left.
        now destruct k'.
    + left. apply (step_closes _ _ _ Es). now right.
Qed.

(** A maximal run of lines of one kind that accumulates, anywhere in the
    input, is one block: the lines before it and the lines after it are
    rendered as if each part stood alone, and the run gives one fragment
    between theirs. *)
Lemma block_in_context (k : Spec.kind) (ty : block_type)
    (before run after : list str) (fb fa : list str) :
  type_of_kind k = Some ty -> run <> [] ->
  Forall (fun l => Spec.classify (rstrip l) = Some k) run ->
  Spec.classify (rstrip (last before [])) <> Some k ->
  Spec.classify (rstrip (hd [] after)) <> Some k ->
  fragments before = Some fb -> fragments after = Some fa ->
  fragments (before ++ run ++ after) =
    Some (fb ++ flush_as ty (map rstrip run) :: fa).
Proof.
  intros Hk Hne Hrun Hbefore Hafter Hfb Hfa.
  unfold fragments in Hfb, Hfa |- *. rewrite scan_app.
  destruct (scan initial_state before) as [st1|] eqn:E1; [|discriminate].
  injection Hfb as <-.
  pose proof (scan_ends_other k ty before st1 Hk Hbefore E1) as Hst.
  destruct run as [|l run]; [congruence|].
  inversion Hrun as [|? ? Hl Hrest]; subst.
  cbn [app scan]. rewrite (step_opens k ty) by assumption.
  rewrite scan_app, (scan_run_next k ty) by assumption.
  cbn [app map].
  destruct after as [|l2 rest].
  - cbn [scan option_map]. injection Hfa as <-.
    cbn [last_block truthy]. now destruct ty.
  - cbn [hd] in Hafter. cbn [scan] in Hfa |- *.
    pose proof (step_closes_block k ty (last_block st1)
                  (rstrip l :: map rstrip run) l2 Hk ltac:(discriminate)
                  Hafter) as Hc.
    destruct (step initial_state l2) as [b|]; [|discriminate].
    destruct (step _ l2) as [a|]; [|easy].
    pose proof (scan_same_block rest _ _ Hc) as Hsc.
    rewrite scan_after_fragments in Hsc.
    destruct (scan b rest) as [sb|]; [|discriminate].
    cbn [option_map] in Hfa, Hsc. injection Hfa as <-.
    destruct (scan a rest) as [sa|]; [|easy].
    cbn [option_map]. f_equal.
    rewrite (last_block_same_block _ _ Hsc), last_block_after_fragments.
    now rewrite <- app_assoc.
Qed.

Lemma with_breaks_nonempty (rendered : list str) :
  rendered <> [] -> Spec.with_breaks rendered <> [].
Proof. destruct rendered as [|x [|y rest]]; simpl; congruence. Qed.

(** The text of a paragraph block whose lines are not empty, character by
    character. *)
Lemma paragraph_block_text (ps : list str) :
  ps <> [] ->
  Forall (fun l => Spec.classify (rstrip l) = Some Spec.Paragraph) ps ->
  convert_paragraph (map rstrip ps) =
    py "<p>" ++ "010"%char
      :: concat (map (fun r => r ++ ["010"%char])
                     (Spec.with_breaks
                        (map process_inline_markup (map rstrip ps))))
      ++ py "</p>".
Proof.
  intros Hne H. rewrite convert_paragraph_breaks.
  - rewrite (app_assoc (join nl _) nl), (join_then_sep nl).
    + reflexivity.
    + apply with_breaks_nonempty. now destruct ps.
  - apply Forall_map. revert H. apply Forall_impl. intros l Hl.
    now apply classify_truthy in Hl.
Qed.

(** C3: [convert_paragraph] gives [<p>], a line feed, the lines of the
    block, each rewritten by the inline rewriter and followed by a line
    feed, and [</p>]; [<br/>] follows the rendered line [i] exactly when [i]
    is not the last line and the raw line [i + 1] is not empty.  A maximal
    run of paragraph lines is rendered as one [<p>] block by
    [convert_paragraph]: when it makes the whole input, and when it stands
    anywhere in an input, between the fragments of the lines before it and
    those of the lines after it, with a line feed between two fragments in
    the text that [main] writes. *)
Theorem convert_paragraph_lines (lines : list str) :
  (exists rendered : list str,
     convert_paragraph lines =
       py "<p>" ++ nl ++ join nl rendered ++ nl ++ py "</p>" /\
     (lines <> [] ->
      convert_paragraph lines =
        py "<p>" ++ "010"%char
          :: concat (map (fun r => r ++ ["010"%char]) rendered)
          ++ py "</p>") /\
     length rendered = length lines /\
     forall i line, nth_error lines i = Some line ->
       (i + 1 < length lines /\ nth (i + 1) lines [] <> [] ->
        nth_error rendered i =
          Some (process_inline_markup line ++ py "<br/>")) /\
       (~ (i + 1 < length lines /\ nth (i + 1) lines [] <> []) ->
        nth_error rendered i = Some (process_inline_markup line))) /\
  (lines <> [] ->
   Forall (fun l => Spec.classify (rstrip l) = Some Spec.Paragraph) lines ->
   main lines = Some (convert_paragraph (map rstrip lines))) /\
  (lines <> [] ->
   Forall (fun l => Spec.classify (rstrip l) = Some Spec.Paragraph) lines ->
   forall before after fb fa : list str,
     Spec.classify (rstrip (last before [])) <> Some Spec.Paragraph ->
     Spec.classify (rstrip (hd [] after)) <> Some Spec.Paragraph ->
     fragments before = Some fb -> fragments after = Some fa ->
     fragments (before ++ lines ++ after) =
       Some (fb ++ convert_paragraph (map rstrip lines) :: fa) /\
     main (before ++ lines ++ after) =
       Some (concat (map (fun f => f ++ ["010"%char]) fb)
             ++ convert_paragraph (map rstrip lines)
             ++ concat (map (fun f => "010"%char :: f) fa))).
Proof.
  split; [|split].
  - exists (convert_paragraph_loop lines 0 lines []).
    destruct (convert_paragraph_loop_spec lines lines 0 [])
      as (Hlen & _ & Hnew); [reflexivity|].
    cbn [length Nat.add] in Hlen, Hnew.
    split; [reflexivity|]. split; [|split; [exact Hlen|]].
    + intros Hne. unfold convert_paragraph. cbv zeta.
      rewrite (app_assoc (join nl _) nl), (join_then_sep nl); [reflexivity|].
      intros E. rewrite E in Hlen. now destruct lines.
    + intros i line H. split.
      * intros [Hi Hne]. rewrite (Hnew i line H).
        replace (i <? length lines - 1) with true
          by (symmetry; apply Nat.ltb_lt; lia).
        apply truthy_true in Hne. now rewrite Hne.
      * intros Hno. rewrite (Hnew i line H).
        destruct (i <? length lines - 1) eqn:Ei; simpl;
          [|now rewrite app_nil_r].
        destruct (truthy (nth (i + 1) lines [])) eqn:Et; simpl;
          [|now rewrite app_nil_r].
        exfalso. apply Hno. split; [apply Nat.ltb_lt in Ei; lia|].
        now apply truthy_true.
  - intros Hne Hall. unfold main, fragments, initial_state.
    rewrite scan_paragraph_first by assumption.
    destruct lines as [|l lines]; [congruence|]. reflexivity.
  - intros Hne Hall before after fb fa Hb Ha Hfb Hfa.
    pose proof (block_in_context Spec.Paragraph p before lines after fb fa
                  eq_refl Hne Hall Hb Ha Hfb Hfa) as G.
    split; [exact G|]. unfold main. rewrite G. cbn [option_map]. f_equal.
    apply (join_around nl).
Qed.

Lemma convert_paragraph_lines_witness :
  fragments ([py "- item"] ++ [py "one line  "; py "and another"]
               ++ [py "* item"]) =
    Some ([convert_unordered_list [py "- item"]]
            ++ convert_paragraph
                 (map rstrip [py "one line  "; py "and another"])
            :: [convert_ordered_list [py "* item"]]).
Proof.
  refine (proj1 (proj2 (proj2 (convert_paragraph_lines
                                 [py "one line  "; py "and another"]))
                   _ _ [py "- item"] [py "* item"] _ _ _ _ _ _)).
  - discriminate.
  - repeat constructor.
  - discriminate.
  - discriminate.
  - reflexivity.
  - reflexivity.
Defined.

(** C7: a blank line closes the open block and leaves the scanner without
    an open block.  Two runs of paragraph lines with one blank line between
    them give two [<p>] blocks, each with its own [<p>] and [</p>] around
    the lines of its run, and a line feed between the two: from any state
    without an open block, on an input made of the two runs, and anywhere
    in an input, between the fragments of the lines before the first run
    and those of the lines after the second. *)
Theorem blank_line_separates_paragraphs (ps1 ps2 : list str) (blank : str) :
  ps1 <> [] -> ps2 <> [] ->
  Forall (fun l => Spec.classify (rstrip l) = Some Spec.Paragraph) ps1 ->
  Forall (fun l => Spec.classify (rstrip l) = Some Spec.Paragraph) ps2 ->
  rstrip blank = [] ->
  (forall st,
     step st blank =
       Some (match current_block st with
             | [] => st
             | _ :: _ => mkState (last_block st) [] None
             end)) /\
  (forall html ty,
     scan (mkState html [] ty) (ps1 ++ blank :: ps2) =
       Some (mkState (html ++ [convert_paragraph (map rstrip ps1)])
                     (map rstrip ps2) (Some p))) /\
  main (ps1 ++ blank :: ps2) =
    Some (convert_paragraph (map rstrip ps1) ++ nl
            ++ convert_paragraph (map rstrip ps2)) /\
  main (ps1 ++ blank :: ps2) =
    Some ((py "<p>" ++ "010"%char
             :: concat (map (fun r => r ++ ["010"%char])
                            (Spec.with_breaks
                               (map process_inline_markup (map rstrip ps1))))
             ++ py "</p>")
          ++ "010"%char
          :: (py "<p>" ++ "010"%char
                :: concat (map (fun r => r ++ ["010"%char])
                               (Spec.with_breaks
                                  (map process_inline_markup
                                       (map rstrip ps2))))
                ++ py "</p>")) /\
  (forall before after fb fa : list str,
     Spec.classify (rstrip (last before [])) <> Some Spec.Paragraph ->
     Spec.classify (rstrip (hd [] after)) <> Some Spec.Paragraph ->
     fragments before = Some fb -> fragments after = Some fa ->
     fragments (before ++ ps1 ++ blank :: ps2 ++ after) =
       Some (fb
             ++ (py "<p>" ++ "010"%char
                   :: concat (map (fun r => r ++ ["010"%char])
                                  (Spec.with_breaks
                                     (map process_inline_markup
                                          (map rstrip ps1))))
                   ++ py "</p>")
             :: (py "<p>" ++ "010"%char
                   :: concat (map (fun r => r ++ ["010"%char])
                                  (Spec.with_breaks
                                     (map process_inline_markup
                                          (map rstrip ps2))))
                   ++ py "</p>")
             :: fa) /\
     main (before ++ ps1 ++ blank :: ps2 ++ after) =
       Some (concat (map (fun f => f ++ ["010"%char]) fb)
             ++ (py "<p>" ++ "010"%char
                   :: concat (map (fun r => r ++ ["010"%char])
                                  (Spec.with_breaks
                                     (map process_inline_markup
                                          (map rstrip ps1))))
                   ++ py "</p>")
             ++ "010"%char
             :: (py "<p>" ++ "010"%char
                   :: concat (map (fun r => r ++ ["010"%char])
                                  (Spec.with_breaks
                                     (map process_inline_markup
                                          (map rstrip ps2))))
                   ++ py "</p>")
             ++ concat (map (fun f => "010"%char :: f) fa))).
Proof.
  intros Hne1 Hne2 H1 H2 Hb.
  rewrite <- !(paragraph_block_text ps1 Hne1 H1).
  rewrite <- !(paragraph_block_text ps2 Hne2 H2).
  assert (Hscan : forall html ty,
     scan (mkState html [] ty) (ps1 ++ blank :: ps2) =
       Some (mkState (html ++ [convert_paragraph (map rstrip ps1)])
                     (map rstrip ps2) (Some p))).
  { intros html ty. rewrite scan_app, scan_paragraph_first by assumption.
    cbn [scan]. rewrite step_blank by exact Hb.
    destruct ps1 as [|l1 ps1]; [congruence|]. simpl current_block.
    cbn [map last_block truthy].
    now rewrite scan_paragraph_first. }
  assert (Hmain : main (ps1 ++ blank :: ps2) =
            Some (convert_paragraph (map rstrip ps1) ++ nl
                    ++ convert_paragraph (map rstrip ps2))).
  { unfold main, fragments, initial_state. rewrite Hscan.
    destruct ps2 as [|l2 ps2]; [congruence|]. reflexivity. }
  split; [intros st; now apply step_blank|].
  split; [exact Hscan|]. split; [exact Hmain|]. split; [exact Hmain|].
  intros before after fb fa Hbefore Hafter Hfb Hfa.
  assert (G2 : fragments (ps2 ++ after) =
                 Some ([] ++ convert_paragraph (map rstrip ps2) :: fa)).
  { exact (block_in_context Spec.Paragraph p [] ps2 after [] fa eq_refl
             Hne2 H2 ltac:(discriminate) Hafter eq_refl Hfa). }
  assert (G1 : fragments (blank :: ps2 ++ after) =
                 Some (convert_paragraph (map rstrip ps2) :: fa)).
  { exact (fragments_at_blank [] (ps2 ++ after) blank [] _ Hb eq_refl G2). }
  assert (G : fragments (before ++ ps1 ++ blank :: ps2 ++ after) =
                Some (fb ++ convert_paragraph (map rstrip ps1)
                         :: convert_paragraph (map rstrip ps2) :: fa)).
  { apply (block_in_context Spec.Paragraph p before ps1
             (blank :: ps2 ++ after) fb _ eq_refl Hne1 H1 Hbefore);
      [|exact Hfb|exact G1].
    cbn [hd]. rewrite Hb. discriminate. }
  split; [exact G|]. unfold main. rewrite G. cbn [option_map]. f_equal.
  rewrite (join_around nl). reflexivity.
Qed.

Lemma blank_line_separates_paragraphs_witness :
  fragments ([py "- x"] ++ [py "p1"] ++ py "" :: [py "p2"] ++ []) =
    Some ([convert_unordered_list [py "- x"]]
          ++ (py "<p>" ++ "010"%char
                :: concat (map (fun r => r ++ ["010"%char])
                               (Spec.with_breaks
                                  (map process_inline_markup
                                       (map rstrip [py "p1"]))))
                ++ py "</p>")
          :: (py "<p>" ++ "010"%char
                :: concat (map (fun r => r ++ ["010"%char])
                               (Spec.with_breaks
                                  (map process_inline_markup
                                       (map rstrip [py "p2"]))))
                ++ py "</p>")
          :: []).
Proof.
  refine (proj1 (proj2 (proj2 (proj2 (proj2
            (blank_line_separates_paragraphs [py "p1"] [py "p2"] (py "")
               _ _ _ _ _))))
            [py "- x"] [] _ _ _ _ _ _)).
  - discriminate.
  - discriminate.
  - repeat constructor.
  - repeat constructor.
  - reflexivity.
  - discriminate.
  - discriminate.
  - reflexivity.
  - reflexivity.
Defined.

(** ** Complete spans before an unterminated delimiter *)

Lemma has_pair_tail (d x : ascii) (s : str) :
  has_pair d (x :: s) = false -> has_pair d s = false.
Proof.
  destruct s as [|y t]; [reflexivity|].
  rewrite has_pair_cons. intros H. now apply orb_false_iff in H.
Qed.

(** A complete span after a stretch in which the delimiter does not occur:
    no match begins in the stretch, not even at a last character [d], since
    the group would be empty. *)
Lemma re_sub_pair_after_gap (d : ascii) (pre post u g r : str) :
  g <> [] -> has_pair d u = false -> free_of d g = true ->
  re_sub_pair d pre post (u ++ d :: d :: g ++ d :: d :: r) =
    u ++ pre ++ g ++ post ++ re_sub_pair d pre post r.
Proof.
  intros Hne Hu Hg. induction u as [|a u IH].
  - now apply (re_sub_pair_span d pre post [] g r).
  - assert (E : match_pair d ((a :: u) ++ d :: d :: g ++ d :: d :: r) = None).
    { destruct u as [|b u]; cbn [app]; unfold match_pair.
      - destruct (chr_eqb a d); [|reflexivity].
        rewrite chr_eqb_refl. cbn [andb span_not].
        now rewrite chr_eqb_refl.
      - rewrite has_pair_cons in Hu. apply orb_false_iff in Hu as [Hu _].
        now rewrite Hu. }
    cbn [app] in E |- *. rewrite re_sub_pair_cons, E. f_equal.
    apply IH. now apply has_pair_tail in Hu.
Qed.

(** [re.sub] on a text made of complete spans, each after a stretch without
    the delimiter, and of any text after them: the spans are rewritten one
    by one and the scan goes on in the text after them. *)
Lemma re_sub_pair_spans (d : ascii) (pre post : str)
    (spans : list (str * str)) (tail : str) :
  Forall (fun gc => has_pair d (fst gc) = false /\ free_of d (snd gc) = true
                    /\ snd gc <> []) spans ->
  re_sub_pair d pre post
    (concat (map (fun gc => fst gc ++ d :: d :: snd gc ++ [d; d]) spans)
       ++ tail) =
    concat (map (fun gc => fst gc ++ pre ++ snd gc ++ post) spans)
      ++ re_sub_pair d pre post tail.
Proof.
  induction 1 as [|[u g] spans (Hu & Hg & Hne) _ IH]; [reflexivity|].
  cbn [map concat fst snd] in *.
  rewrite <- !app_assoc. cbn [app]. rewrite <- !app_assoc. cbn [app].
  rewrite re_sub_pair_after_gap by assumption.
  now rewrite IH.
Qed.

Lemma findall_lazy_spans (o c : ascii) (spans : list (str * str))
    (tail : str) :
  Forall (fun gc => free_of o (fst gc) = true /\ span_content c (snd gc))
         spans ->
  findall_lazy o c
    (concat (map (fun gc => fst gc ++ literal o c (snd gc)) spans) ++ tail) =
    map snd spans ++ findall_lazy o c tail.
Proof.
  induction 1 as [|[u g] spans (Hu & Hg) _ IH]; [reflexivity|].
  cbn [map concat fst snd app] in *. rewrite <- !app_assoc.
  rewrite findall_lazy_span by assumption.
  now rewrite IH.
Qed.

Lemma substitute_spans_spans (o c : ascii) (f : str -> str)
    (spans : list (str * str)) (tail : str) :
  Forall (fun gc => free_of o (fst gc) = true /\ span_content c (snd gc))
         spans ->
  Spec.substitute_spans o c f
    (concat (map (fun gc => fst gc ++ literal o c (snd gc)) spans) ++ tail) =
    concat (map (fun gc => fst gc ++ f (snd gc)) spans)
      ++ Spec.substitute_spans o c f tail.
Proof.
  induction 1 as [|[u g] spans (Hu & Hg) _ IH]; [reflexivity|].
  cbn [map concat fst snd] in *. rewrite <- !app_assoc.
  rewrite (substitute_spans_span o c f u g _ Hu Hg).
  now rewrite IH.
Qed.

(** No opening pair that a closing pair follows: nothing to substitute. *)
Lemma substitute_spans_unterminated (o c : ascii) (f : str -> str) (s : str) :
  has_span o c s = false -> Spec.substitute_spans o c f s = s.
Proof.
  induction s as [|x s IH]; intros H; [reflexivity|].
  rewrite substitute_spans_cons.
  destruct (match_lazy o c (x :: s)) as [g|] eqn:E.
  - apply match_lazy_has_span in E. congruence.
  - f_equal. apply IH. now apply has_span_tail in H.
Qed.

(** The loop of a hash or strip pass on a text made of complete spans
    without an opening character in their content, each after a stretch
    without an opening character, and of a text after them in which no
    opening pair is followed by a closing pair: the spans are replaced and
    the text after them is returned as it is. *)
Lemma loop_spans (o c : ascii) (f : str -> str) (spans : list (str * str))
    (tail : str) :
  o <> c -> o <> newline -> c <> newline ->
  (forall g, free_of o g = true -> free_of o (f g) = true) ->
  Forall (fun gc => free_of o (fst gc) = true /\ free_of o (snd gc) = true
                    /\ span_content c (snd gc)) spans ->
  has_span o c tail = false ->
  fold_left (fun t m => replace (literal o c m) (f m) t)
    (findall_lazy o c
       (concat (map (fun gc => fst gc ++ literal o c (snd gc)) spans)
          ++ tail))
    (concat (map (fun gc => fst gc ++ literal o c (snd gc)) spans) ++ tail) =
    concat (map (fun gc => fst gc ++ f (snd gc)) spans) ++ tail.
Proof.
  intros Hoc Hon Hcn Hf Hspans Htail.
  assert (Hs : Forall (fun gc => free_of o (fst gc) = true
                                 /\ span_content c (snd gc)) spans).
  { revert Hspans. apply Forall_impl. tauto. }
  assert (Hflat : flat_spans o c
            (concat (map (fun gc => fst gc ++ literal o c (snd gc)) spans)
               ++ tail) = true).
  { unfold flat_spans. rewrite (findall_lazy_spans o c spans tail Hs).
    rewrite (findall_lazy_unterminated o c tail Htail), app_nil_r.
    clear Hs. induction Hspans as [|[u g] spans (_ & Hg & _) _ IH];
      [reflexivity|].
    cbn [map forallb snd] in Hg |- *. now rewrite Hg, IH. }
  rewrite loop_replaces_spans by assumption.
  rewrite (substitute_spans_spans o c f spans tail Hs).
  now rewrite substitute_spans_unterminated.
Qed.

(** C6, as the claim states it, fails.  In the line written below the
    bold delimiter is opened and never closed, and no pass raises; but the
    delimiter stands inside a complete hash span, and the hash pass replaces
    the span, delimiter included, by the digest of its content: the
    delimiter is not in the output. *)
Lemma unterminated_delimiter_inside_hash_span :
  has_span "*" "*" (py "[[**a]]") = false /\
  has_pair "*" (py "[[**a]]") = true /\
  bold_pass (py "[[**a]]") = py "[[**a]]" /\
  process_inline_markup (py "[[**a]]") = MD5.hexdigest (encode (py "**a")) /\
  free_of "*" (process_inline_markup (py "[[**a]]")) = true /\
  ~ (forall u v,
       has_pair "*" v = false ->
       has_pair "*" (process_inline_markup (u ++ py "**" ++ v)) = true).
Proof.
  split; [reflexivity|]. split; [reflexivity|].
  split; [vm_compute; reflexivity|].
  split; [vm_compute; reflexivity|].
  split; [vm_compute; reflexivity|].
  intros H. specialize (H (py "[[") (py "a]]") eq_refl).
  vm_compute in H. discriminate H.
Qed.

(** C6, amended: the inline rewriter is a total function.  A pass whose
    opening delimiter is never followed by its closing delimiter returns
    its text unchanged, and a line in which this holds of the four
    delimiters goes through the rewriter unchanged.  In a line made of
    complete spans of one kind, each after a stretch without the delimiter
    of that kind (for the hash and strip passes, without its opening
    character), followed by a text in which the opening delimiter of that
    kind is never followed by its closing delimiter, the pass of that kind
    rewrites the spans and returns the text after them, unterminated
    delimiter included, as it is. *)
Theorem inline_markup_unterminated (text : str) (spans : list (str * str))
    (tail : str) :
  (has_span "*" "*" text = false -> bold_pass text = text) /\
  (has_span "_" "_" text = false -> emphasis_pass text = text) /\
  (has_span "[" "]" text = false -> hash_pass text = text) /\
  (has_span "(" ")" text = false -> strip_pass text = text) /\
  (has_span "*" "*" text = false -> has_span "_" "_" text = false ->
   has_span "[" "]" text = false -> has_span "(" ")" text = false ->
   process_inline_markup text = text) /\
  (Forall (fun gc => has_pair "*" (fst gc) = false
                     /\ free_of "*" (snd gc) = true /\ snd gc <> []) spans ->
   has_span "*" "*" tail = false ->
   bold_pass
     (concat (map (fun gc => fst gc ++ py "**" ++ snd gc ++ py "**") spans)
        ++ tail) =
     concat (map (fun gc => fst gc ++ py "<b>" ++ snd gc ++ py "</b>") spans)
       ++ tail) /\
  (Forall (fun gc => has_pair "_" (fst gc) = false
                     /\ free_of "_" (snd gc) = true /\ snd gc <> []) spans ->
   has_span "_" "_" tail = false ->
   emphasis_pass
     (concat (map (fun gc => fst gc ++ py "__" ++ snd gc ++ py "__") spans)
        ++ tail) =
     concat (map (fun gc => fst gc ++ py "<em>" ++ snd gc ++ py "</em>")
                 spans)
       ++ tail) /\
  (Forall (fun gc => free_of "[" (fst gc) = true
                     /\ free_of "[" (snd gc) = true
                     /\ free_of "]" (snd gc) = true
                     /\ free_of newline (snd gc) = true) spans ->
   has_span "[" "]" tail = false ->
   hash_pass
     (concat (map (fun gc => fst gc ++ py "[[" ++ snd gc ++ py "]]") spans)
        ++ tail) =
     concat (map (fun gc => fst gc ++ MD5.hexdigest (encode (snd gc))) spans)
       ++ tail) /\
  (Forall (fun gc => free_of "(" (fst gc) = true
                     /\ free_of "(" (snd gc) = true
                     /\ free_of ")" (snd gc) = true
                     /\ free_of newline (snd gc) = true) spans ->
   has_span "(" ")" tail = false ->
   strip_pass
     (concat (map (fun gc => fst gc ++ py "((" ++ snd gc ++ py "))") spans)
        ++ tail) =
     concat (map (fun gc => fst gc ++ remove_c (snd gc)) spans) ++ tail).
Proof.
  assert (Hb : has_span "*" "*" text = false -> bold_pass text = text)
    by apply re_sub_pair_unterminated.
  assert (He : has_span "_" "_" text = false -> emphasis_pass text = text)
    by apply re_sub_pair_unterminated.
  assert (Hh : has_span "[" "]" text = false -> hash_pass text = text).
  { intros H. unfold hash_pass.
    now rewrite (findall_lazy_unterminated _ _ _ H). }
  assert (Hs : has_span "(" ")" text = false -> strip_pass text = text).
  { intros H. unfold strip_pass.
    now rewrite (findall_lazy_unterminated _ _ _ H). }
  split; [exact Hb|]. split; [exact He|]. split; [exact Hh|].
  split; [exact Hs|]. split.
  { intros H1 H2 H3 H4. unfold process_inline_markup.
    now rewrite (Hb H1), (He H2), (Hh H3), (Hs H4). }
  split; [|split; [|split]].
  - intros Hspans Htail.
    pose proof (re_sub_pair_spans "*" (py "<b>") (py "</b>") spans tail
                  Hspans) as G.
    rewrite (re_sub_pair_unterminated "*" _ _ tail Htail) in G.
    exact G.
  - intros Hspans Htail.
    pose proof (re_sub_pair_spans "_" (py "<em>") (py "</em>") spans tail
                  Hspans) as G.
    rewrite (re_sub_pair_unterminated "_" _ _ tail Htail) in G.
    exact G.
  - intros Hspans Htail. rewrite hash_pass_loop.
    apply (loop_spans "[" "]" (fun m => MD5.hexdigest (encode m)) spans tail);
      try discriminate; try exact Htail.
    + intros g _. apply lower_hex_free; [reflexivity|].
      apply hexdigest_format.
    + revert Hspans. apply Forall_impl. intros gc (Hu & Ho & Hc & Hn).
      split; [exact Hu|]. split; [exact Ho|]. now apply content_free.
  - intros Hspans Htail. rewrite strip_pass_loop.
    apply (loop_spans "(" ")" remove_c spans tail);
      try discriminate; try exact Htail.
    + apply remove_c_free.
    + revert Hspans. apply Forall_impl. intros gc (Hu & Ho & Hc & Hn).
      split; [exact Hu|]. split; [exact Ho|]. now apply content_free.
Qed.

Lemma inline_markup_unterminated_witness :
  bold_pass
    (concat (map (fun gc => fst gc ++ py "**" ++ snd gc ++ py "**")
                 [(py "2 * 3 ", py "a"); (py " and ", py "b c")])
       ++ py " **d") =
    concat (map (fun gc => fst gc ++ py "<b>" ++ snd gc ++ py "</b>")
                [(py "2 * 3 ", py "a"); (py " and ", py "b c")])
      ++ py " **d".
Proof.
  refine (proj1 (proj2 (proj2 (proj2 (proj2 (proj2
            (inline_markup_unterminated
               [] [(py "2 * 3 ", py "a"); (py " and ", py "b c")]
               (py " **d"))))))) _ _).
  - repeat constructor; discriminate.
  - reflexivity.
Defined.

(** ** Examples *)

(** The MD5 model on known digests: the empty message, a short one, a
    message of two blocks, and a character above 127, which UTF-8 encodes
    on two bytes. *)
Example md5_of_empty :
  MD5.hexdigest (encode (py "")) = py "d41d8cd98f00b204e9800998ecf8427e".
Proof. vm_compute. reflexivity. Qed.

Example md5_of_abc :
  MD5.hexdigest (encode (py "abc")) = py "900150983cd24fb0d6963f7d28e17f72".
Proof. vm_compute. reflexivity. Qed.

Example md5_of_two_blocks :
  MD5.hexdigest (encode (repeat "x"%char 70)) =
    py "7d56c0f83fd1e320d60ea2f13dfdeedd".
Proof. vm_compute. reflexivity. Qed.

Example md5_of_e_acute :
  MD5.hexdigest (encode [ascii_of_nat 233]) =
    py "66ddcd97cfdeabb2f6fb8a999b4bc76f".
Proof. vm_compute. reflexivity. Qed.

Example bold_and_emphasis :
  process_inline_markup (py "**x**") = py "<b>x</b>" /\
  process_inline_markup (py "__x__") = py "<em>x</em>" /\
  process_inline_markup (py "***a** **b c** ****") =
    py "*<b>a</b> <b>b c</b> ****".
Proof. repeat split; vm_compute; reflexivity. Qed.

Example replace_occurrences :
  replace (py "aa") (py "b") (py "aaa") = py "ba" /\
  replace (py "") (py "-") (py "abc") = py "-a-b-c-".
Proof. split; vm_compute; reflexivity. Qed.

(** The end-to-end example of the specification. *)
Example end_to_end :
  main [py "# Title"; py "**bold** and __em__"; py "- one"; py "- two"] =
    Some (py "<h1>Title</h1>" ++ nl
            ++ py "<p>" ++ nl
            ++ py "<b>bold</b> and <em>em</em>" ++ nl
            ++ py "</p>" ++ nl
            ++ py "<ul>" ++ nl
            ++ py "<li>one</li>" ++ nl
            ++ py "<li>two</li>" ++ nl
            ++ py "</ul>").
Proof. vm_compute. reflexivity. Qed.
